(** * Tangents from a point to a (multi)polygon: [packages/turf-polygon-tangents/index.ts]

    A shallow embedding of [polygonTangents], [processPolygon], [isAbove],
    [isBelow] and [isLeft], and of [angle], which the same source file
    holds as a second module.

    Numbers.  A coordinate is a JavaScript number, an IEEE 754 binary64.
    The development has the program twice.  Over the exact rationals ([Q])
    a coordinate is read as the rational it is, and subtraction,
    multiplication and the comparisons are taken without rounding, overflow
    or NaN; this reading serves what does not depend on the arithmetic, the
    shape of the resolver, its indexing and what it leaves undefined, and
    the scenarios in small integers, on which binary64 is exact.  Over
    Rocq's primitive [float], binary64 with rounding to nearest even, the
    program has its own arithmetic; what depends on the value of an
    orientation is stated of this one.

    Values.  A [Position] is the two-element array [[x, y]]: [fst] is index
    0, [snd] is index 1.  Indexing an array out of range yields [undefined],
    written [None]; reading an index of [undefined] throws, written
    [Thrown]. *)

From Stdlib Require Import Floats.
From Stdlib Require Import String.
From Stdlib Require Import QArith Qminmax List Bool Arith Lia Lqa.
Import ListNotations.

Set Implicit Arguments.
Open Scope Q_scope.

(** ** Numbers and comparisons *)

(** [x < y] on numbers, as a boolean. *)
Definition Qltb (x y : Q) : bool := negb (Qle_bool y x).

(** ** Exceptions *)

(** The outcome of a call: a value, or an exception thrown on the way. *)
Inductive result (A : Type) : Type :=
| Ok (a : A)
| Thrown.
Arguments Thrown {A}.

Definition bind {A B : Type} (r : result A) (k : A -> result B) : result B :=
  match r with
  | Ok a => k a
  | Thrown => Thrown
  end.

Notation "x <- r ;; k" := (bind r (fun x => k))
  (at level 61, r at next level, right associativity).

(** Reading a property of [v]: a [TypeError] when [v] is [undefined]. *)
Definition defined {A : Type} (v : option A) : result A :=
  match v with
  | Some a => Ok a
  | None => Thrown
  end.

(** [arr[i]] for a number [i] that may be negative ([arr.length - 1] on an
    empty array is [-1]); no element lives at a negative index. *)
Definition at_index {A : Type} (arr : list A) (i : Z) : option A :=
  if (i <? 0)%Z then None else nth_error arr (Z.to_nat i).

(** ** Data *)

Definition Position : Type := (Q * Q)%type.
Definition Ring : Type := list Position.

(** The [coordinates] of the two geometries the function accepts. *)
Inductive Geometry : Type :=
| Polygon (coordinates : list Ring)
| MultiPolygon (coordinates : list (list Ring)).

(** [bbox[0..3]]: minX, minY, maxX, maxY. *)
Record BBox : Type := mkBBox { minX : Q; minY : Q; maxX : Q; maxY : Q }.

(** What the resolver reads of the feature [nearestPoint] returns:
    [properties.featureIndex] and [geometry.coordinates]. *)
Record Nearest : Type := mkNearest { featureIndex : nat; coordinates : Position }.

(** Every stored vertex of a geometry, holes included. *)
Definition vertices (g : Geometry) : list Position :=
  match g with
  | Polygon rings => concat rings
  | MultiPolygon polys => concat (concat polys)
  end.

(** ** The orientation predicate and its comparators *)

Definition isLeft (point1 point2 point3 : Position) : Q :=
  (fst point2 - fst point1) * (snd point3 - snd point1) -
  (fst point3 - fst point1) * (snd point2 - snd point1).

Definition isAbove (point1 point2 point3 : Position) : bool :=
  Qltb 0 (isLeft point1 point2 point3).

Definition isBelow (point1 point2 point3 : Position) : bool :=
  Qltb (isLeft point1 point2 point3) 0.

(** ** The ring sweep: [processPolygon] *)

(** The loop variables of [processPolygon]. [rtan] and [ltan] may hold
    [undefined]: the resolver seeds them by indexing. *)
Record Sweep : Type := mkSweep {
  st_eprev : Q;
  st_rtan : option Position;
  st_ltan : option Position
}.

(** The body of the [for] loop at index [i]. *)
Definition sweepBody (polygonCoords : Ring) (ptCoords : Position)
    (i : nat) (st : Sweep) : result Sweep :=
  currentCoords <- defined (nth_error polygonCoords i) ;;
  nextCoordPair <- defined
    (if Nat.eqb i (length polygonCoords - 1)
     then nth_error polygonCoords 0
     else nth_error polygonCoords (i + 1)) ;;
  let enext := isLeft currentCoords nextCoordPair ptCoords in
  if Qle_bool (st_eprev st) 0 && Qltb 0 enext then
    r <- defined (st_rtan st) ;;
    Ok (mkSweep enext
          (if negb (isBelow ptCoords currentCoords r)
           then Some currentCoords else st_rtan st)
          (st_ltan st))
  else if Qltb 0 (st_eprev st) && Qle_bool enext 0 then
    l <- defined (st_ltan st) ;;
    Ok (mkSweep enext
          (st_rtan st)
          (if negb (isAbove ptCoords currentCoords l)
           then Some currentCoords else st_ltan st))
  else
    Ok (mkSweep enext (st_rtan st) (st_ltan st)).

(** [n] more iterations of the loop, starting at index [i]. *)
Fixpoint sweepLoop (polygonCoords : Ring) (ptCoords : Position)
    (n i : nat) (st : Sweep) : result Sweep :=
  match n with
  | O => Ok st
  | S n' =>
      st' <- sweepBody polygonCoords ptCoords i st ;;
      sweepLoop polygonCoords ptCoords n' (S i) st'
  end.

Definition processPolygon (polygonCoords : Ring) (ptCoords : Position)
    (eprev : Q) (rtan ltan : option Position)
    : result (option Position * option Position) :=
  st <- sweepLoop polygonCoords ptCoords (length polygonCoords) 0
          (mkSweep eprev rtan ltan) ;;
  Ok (st_rtan st, st_ltan st).

(** ** The resolver: [polygonTangents] *)

(** The bounding-box guard of the resolver. *)
Definition insideBbox (pointCoords : Position) (bbox : BBox) : bool :=
  Qltb (minX bbox) (fst pointCoords) &&
  Qltb (fst pointCoords) (maxX bbox) &&
  Qltb (minY bbox) (snd pointCoords) &&
  Qltb (snd pointCoords) (maxY bbox).

(** The inner [for] loop of the MultiPolygon case over one ring of [m]
    remaining positions, at index [i2]; it returns [closestVertex],
    [verticesCounted] and [verticeFound]. *)
Fixpoint countVertices (nearestPtIndex : nat) (m i2 : nat)
    (closestVertex verticesCounted : nat) : nat * nat * bool :=
  match m with
  | O => (closestVertex, verticesCounted, false)
  | S m' =>
      if Nat.eqb verticesCounted nearestPtIndex
      then (i2, verticesCounted, true)
      else countVertices nearestPtIndex m' (S i2) i2 (S verticesCounted)
  end.

(** The outer [for] loop of the MultiPolygon case: [rings] is what is left
    of [polyCoords[0]] from index [i] on; it returns [closestFeature] and
    [closestVertex]. *)
Fixpoint locateVertex (nearestPtIndex : nat) (rings : list Ring) (i : nat)
    (closestFeature closestVertex verticesCounted : nat) : nat * nat :=
  match rings with
  | [] => (closestFeature, closestVertex)
  | ring :: rest =>
      let '(cv, vc, verticeFound) :=
        countVertices nearestPtIndex (length ring) 0 closestVertex verticesCounted in
      if verticeFound then (i, cv)
      else locateVertex nearestPtIndex rest (S i) i cv vc
  end.

(** The [forEach] of the MultiPolygon case: every element of [polyCoords]
    is swept at its index 0, from the same [eprev]. *)
Fixpoint sweepAll (polyCoords : list (list Ring)) (ptCoords : Position)
    (eprev : Q) (rtan ltan : option Position)
    : result (option Position * option Position) :=
  match polyCoords with
  | [] => Ok (rtan, ltan)
  | ring :: rest =>
      outer <- defined (nth_error ring 0) ;;
      tans <- processPolygon outer ptCoords eprev rtan ltan ;;
      sweepAll rest ptCoords eprev (fst tans) (snd tans)
  end.

Section Resolver.

(** The imported collaborators: [bbox] of [@turf/bbox], [explode] of
    [@turf/explode] and [nearestPoint] of [@turf/nearest-point]. *)
Variable calcBbox : Geometry -> BBox.
Variable explode : Geometry -> list Position.
Variable nearestPoint : Position -> list Position -> result Nearest.

(** The guarded lookup: [nearest] stays [null] ([None]) outside the box. *)
Definition lookupNearest (pointCoords : Position) (polygon : Geometry)
    : result (option Nearest) :=
  if insideBbox pointCoords (calcBbox polygon)
  then nearest <- nearestPoint pointCoords (explode polygon) ;; Ok (Some nearest)
  else Ok None.

Definition indexOf (nearest : option Nearest) : nat :=
  match nearest with
  | Some n => featureIndex n
  | None => 0%nat
  end.

(** The result is the pair of values handed to [point] to build the two
    features of the collection: [rtan] first, [ltan] second. *)
Definition polygonTangents (pt : Position) (polygon : Geometry)
    : result (option Position * option Position) :=
  let pointCoords := pt in
  nearest <- lookupNearest pointCoords polygon ;;
  let nearestPtIndex := indexOf nearest in
  match polygon with
  | Polygon polyCoords =>
      ring0 <- defined (nth_error polyCoords 0) ;;
      let rtan := nth_error ring0 nearestPtIndex in
      let ltan := nth_error ring0 0 in
      let ltan :=
        match nearest with
        | Some n =>
            if Qltb (snd (coordinates n)) (snd pointCoords)
            then nth_error ring0 nearestPtIndex else ltan
        | None => ltan
        end in
      first <- defined (nth_error ring0 0) ;;
      last <- defined (at_index ring0 (Z.of_nat (length ring0) - 1)) ;;
      let eprev := isLeft first last pointCoords in
      processPolygon ring0 pointCoords eprev rtan ltan
  | MultiPolygon polyCoords =>
      poly0 <- defined (nth_error polyCoords 0) ;;
      let '(closestFeature, closestVertex) :=
        locateVertex nearestPtIndex poly0 0 0 0 0 in
      ringc <- defined (nth_error poly0 closestFeature) ;;
      let rtan := nth_error ringc closestVertex in
      let ltan := nth_error ringc closestVertex in
      ring00 <- defined (nth_error poly0 0) ;;
      first <- defined (nth_error ring00 0) ;;
      last <- defined (at_index ring00 (Z.of_nat (length ring00) - 1)) ;;
      let eprev := isLeft first last pointCoords in
      sweepAll polyCoords pointCoords eprev rtan ltan
  end.

End Resolver.

(** ** The collaborators, as the specification describes them *)

(** Modelled from the spec: [explode] of [@turf/explode] is not in the
    source tree.  The flattened vertex list: polygons in input order, in
    each polygon the outer ring before the holes. *)
Definition explode (g : Geometry) : list Position := vertices g.

(** The box [b] grown to hold the vertex [q]. *)
Definition bboxStep (b : BBox) (q : Position) : BBox :=
  mkBBox (Qmin (minX b) (fst q)) (Qmin (minY b) (snd q))
         (Qmax (maxX b) (fst q)) (Qmax (maxY b) (snd q)).

(** Modelled from the spec: [bbox] of [@turf/bbox] is not in the source
    tree.  The axis-aligned extent of all the vertices; a geometry without
    vertices gets the empty box at the origin, which no point is strictly
    inside. *)
Definition calcBbox (g : Geometry) : BBox :=
  match vertices g with
  | [] => mkBBox 0 0 0 0
  | p :: ps => fold_left bboxStep ps (mkBBox (fst p) (snd p) (fst p) (snd p))
  end.

(** The square of the Euclidean distance, which orders pairs of points as
    the distance does. *)
Definition dist2 (a b : Position) : Q :=
  (fst a - fst b) * (fst a - fst b) + (snd a - snd b) * (snd a - snd b).

(** The scan behind [nearestPoint]: [best] is the closest vertex met so far
    and [i] the index of the head of [points]. *)
Fixpoint nearestFrom (target : Position) (points : list Position) (i : nat)
    (best : Nearest) : Nearest :=
  match points with
  | [] => best
  | p :: rest =>
      nearestFrom target rest (S i)
        (if Qltb (dist2 target p) (dist2 target (coordinates best))
         then mkNearest i p else best)
  end.

(** Modelled from the spec: [nearestPoint] of [@turf/nearest-point] is not
    in the source tree.  The closest vertex by Euclidean distance and its
    index in the flattened order, the first one on a tie; nothing is
    promised on an empty list, where the call is taken to throw. *)
Definition nearestPoint (target : Position) (points : list Position)
    : result Nearest :=
  match points with
  | [] => Thrown
  | p :: rest => Ok (nearestFrom target rest 1 (mkNearest 0 p))
  end.

(** The resolver with the collaborators of the specification. *)
Definition tangents
    : Position -> Geometry -> result (option Position * option Position) :=
  polygonTangents calcBbox explode nearestPoint.

(** ** The sweep as the specification words it *)

(** The edges of a ring in order: edge [i] connects vertex [i] to vertex
    [i+1], and the last edge wraps to vertex 0. *)
Definition ringEdges (ring : Ring) : list (Position * Position) :=
  combine ring (tl ring ++ firstn 1 ring).

(** One edge of the sweep: the orientation state and the two candidates
    before it, and after it. *)
Definition sweepEdge (referencePoint : Position)
    (st : Q * Position * Position) (edge : Position * Position)
    : Q * Position * Position :=
  let '(eprev, rtan, ltan) := st in
  let (current, next) := edge in
  let enext := isLeft current next referencePoint in
  if Qlt_le_dec 0 eprev then
    (* eprev > 0 *)
    if Qlt_le_dec 0 enext then (enext, rtan, ltan)
    else (enext, rtan, if isAbove referencePoint current ltan then ltan else current)
  else
    (* eprev <= 0 *)
    if Qlt_le_dec 0 enext
    then (enext, if isBelow referencePoint current rtan then rtan else current, ltan)
    else (enext, rtan, ltan).


(** The sweeps of a MultiPolygon as the specification words them: one per
    polygon, over its outer ring, in input order; each starts from the
    candidates the previous one returned and from the one orientation seed
    [eprev]. *)
Definition sweepOuterRings (polys : list (list Ring)) (referencePoint : Position)
    (eprev : Q) (rtan ltan : option Position)
    : result (option Position * option Position) :=
  fold_left
    (fun acc polygon =>
       tans <- acc ;;
       outer <- defined (hd_error polygon) ;;
       processPolygon outer referencePoint eprev (fst tans) (snd tans))
    polys (Ok (rtan, ltan)).

(** The loop state for candidates that are both defined. *)
Definition sweepOf (st : Q * Position * Position) : Sweep :=
  let '(e, r, l) := st in mkSweep e (Some r) (Some l).

(** ** Reflection across the x-axis *)

Definition mirror (p : Position) : Position := (fst p, - snd p).

Definition mirrorGeometry (g : Geometry) : Geometry :=
  match g with
  | Polygon rings => Polygon (map (map mirror) rings)
  | MultiPolygon polys => MultiPolygon (map (map (map mirror)) polys)
  end.


(** ** Inputs in general position *)

(** [closedOuter polygon body]: the outer ring of [polygon] is [body], at
    least two vertices, followed by the closing duplicate of its first. *)
Inductive closedOuter : list Ring -> list Position -> Prop :=
| closedOuter_intro (v0 v1 : Position) (rest : list Position) (holes : list Ring) :
    closedOuter ((v0 :: v1 :: rest ++ [v0]) :: holes) (v0 :: v1 :: rest).

(** No two entries of [vs] are on one line with [pt]; in particular no two
    are equal. *)
Definition noTies (pt : Position) (vs : list Position) : Prop :=
  ForallOrdPairs (fun a b => ~ isLeft pt a b == 0) vs.

(** ** The order of the vertices around the reference point *)

(** The side of [v] with respect to the line through [pt] of normal [d]. *)
Definition side (pt d v : Position) : Q :=
  fst d * (fst v - fst pt) + snd d * (snd v - snd pt).

(** [b] is not below the line from [pt] to [a]: turning counterclockwise
    around [pt], [a] comes before [b] or with it. *)
Definition before (pt a b : Position) : Prop := 0 <= isLeft pt a b.

(** Every edge swept so far went down: the vertices seen lie between the
    current one and the first one [v0]. *)
Definition descending (pt v0 cur : Position) (seen : list Position) : Prop :=
  before pt cur v0 /\ forall v, In v seen -> before pt cur v /\ before pt v v0.

(** What the sweep of a ring keeps true before the edge that leaves [cur],
    once the vertices [seen] are behind it: [rin] and [lin] are the seed
    candidates and [v0] the first vertex. *)
Definition sweepInv (pt d v0 rin lin : Position) (seen : list Position)
    (cur : Position) (st : Q * Position * Position) : Prop :=
  let '(e, r, l) := st in
  0 < side pt d r /\ 0 < side pt d l /\
  (r = rin \/ In r seen) /\ (l = lin \/ In l seen) /\
  before pt r rin /\ before pt lin l /\
  (forall v, In v seen -> before pt r v \/ before pt cur v) /\
  (0 < e -> before pt r cur) /\
  (before pt r v0 \/ descending pt v0 cur seen) /\
  (forall v, In v seen -> before pt v l \/ before pt v cur \/ before pt v v0) /\
  (e <= 0 -> before pt cur l \/ descending pt v0 cur seen).

(** [r] comes first and [l] last among the seeds and the vertices [body]. *)
Definition extremes (pt d : Position) (body : list Position)
    (rin lin r l : Position) : Prop :=
  0 < side pt d r /\ 0 < side pt d l /\
  (r = rin \/ In r body) /\ (l = lin \/ In l body) /\
  before pt r rin /\ before pt lin l /\
  (forall v, In v body -> before pt r v) /\
  (forall v, In v body -> before pt v l).

(** ** Geometries of the scenarios *)

Definition square : Ring := [(0, 0); (4, 0); (4, 4); (0, 4); (0, 0)].

(** A triangle seen from a point in its bounding box, outside of it. *)
Definition triangle : Ring := [(0, 6); (3, 0); (5, 0); (0, 6)].

Definition squareEast : Ring := [(10, 0); (14, 0); (14, 4); (10, 4); (10, 0)].
Definition twoSquares : Geometry := MultiPolygon [[square]; [squareEast]].

(** A square with a square hole: the outer ring counterclockwise and the
    hole clockwise, and the same with both orientations reversed. *)
Definition frame : Ring := [(0, 0); (10, 0); (10, 10); (0, 10); (0, 0)].
Definition window : Ring := [(4, 4); (4, 7); (7, 7); (7, 4); (4, 4)].
Definition frameCw : Ring := [(0, 0); (0, 10); (10, 10); (10, 0); (0, 0)].
Definition windowCcw : Ring := [(4, 4); (7, 4); (7, 7); (4, 7); (4, 4)].

(** A concave quadrilateral, counterclockwise. *)
Definition dart : Ring := [(0, 4); (3, 2); (2, 0); (5, 1); (0, 4)].

(** A candidate is a stored vertex of [vs], or [undefined]. *)
Definition vertexOrUndefined (vs : list Position) (c : option Position) : Prop :=
  match c with
  | Some p => In p vs
  | None => True
  end.

(** ** The angle at a point: [packages/turf-angle/index.ts]

    The second module of the source file: [angle].  A point is given or
    missing ([undefined] or [null], which [!point] takes for absent),
    written [None]. *)

(** The [options] argument: left out, so that the default [{}] stands in
    for it; a value that [isObject] refuses; or an object, of which the
    function reads whether [explementary] and [mercator] are [true]. *)
Inductive AngleOptions : Type :=
| Omitted
| NotAnObject
| Options (explementary mercator : bool).

(** The outcome of [angle]: a number, or the [Error] thrown, with its
    message. *)
Inductive outcome (A : Type) : Type :=
| Returns (a : A)
| Throws (message : string).
Arguments Throws {A}.

Section Angle.

(** The imported collaborators: [bearing] of [@turf/bearing],
    [rhumbBearing] of [@turf/rhumb-bearing] and [bearingToAzimuth] of
    [@turf/helpers], on points that are given. *)
Variable bearing : Position -> Position -> Q.
Variable rhumbBearing : Position -> Position -> Q.
Variable bearingToAzimuth : Q -> Q.

Definition angle (startPoint midPoint endPoint : option Position)
    (options : AngleOptions) : outcome Q :=
  match
    match options with
    | Omitted => Some (false, false)
    | NotAnObject => None
    | Options explementary mercator => Some (explementary, mercator)
    end
  with
  | None => Throws "options is invalid"
  | Some (explementary, mercator) =>
      match startPoint, midPoint, endPoint with
      | None, _, _ => Throws "startPoint is required"
      | Some _, None, _ => Throws "midPoint is required"
      | Some _, Some _, None => Throws "endPoint is required"
      | Some pA, Some pO, Some pB =>
          let azimuthOA :=
            bearingToAzimuth
              (if negb mercator then bearing pO pA else rhumbBearing pO pA) in
          let azimuthOB :=
            bearingToAzimuth
              (if negb mercator then bearing pO pB else rhumbBearing pO pB) in
          let azimuthOB :=
            if Qltb azimuthOB azimuthOA then azimuthOB + 360 else azimuthOB in
          let angleAOB := azimuthOB - azimuthOA in
          if explementary then Returns (360 - angleAOB) else Returns angleAOB
      end
  end.

End Angle.

(** ** The program's own numbers: binary64

    The definitions above read a number as an exact rational.  The program
    computes in binary64, where a difference or a product is rounded, may
    overflow to an infinity and may be NaN, which compares false with
    everything.  The sweep and the resolver are given again over Rocq's
    primitive [float], IEEE 754 binary64 with rounding to nearest even as
    the program's numbers are; what holds of them holds of the program's
    own arithmetic. *)

Definition Position64 : Type := (float * float)%type.
Definition Ring64 : Type := list Position64.

Inductive Geometry64 : Type :=
| Polygon64 (coordinates : list Ring64)
| MultiPolygon64 (coordinates : list (list Ring64)).

Record BBox64 : Type :=
  mkBBox64 { minX64 : float; minY64 : float; maxX64 : float; maxY64 : float }.

Record Nearest64 : Type :=
  mkNearest64 { featureIndex64 : nat; coordinates64 : Position64 }.

Definition isLeft64 (point1 point2 point3 : Position64) : float :=
  ((fst point2 - fst point1) * (snd point3 - snd point1) -
   (fst point3 - fst point1) * (snd point2 - snd point1))%float.

Definition isAbove64 (point1 point2 point3 : Position64) : bool :=
  (0 <? isLeft64 point1 point2 point3)%float.

Definition isBelow64 (point1 point2 point3 : Position64) : bool :=
  (isLeft64 point1 point2 point3 <? 0)%float.

Record Sweep64 : Type := mkSweep64 {
  st_eprev64 : float;
  st_rtan64 : option Position64;
  st_ltan64 : option Position64
}.

(** The body of the [for] loop at index [i]: [eprev <= 0 && enext > 0],
    then [eprev > 0 && enext <= 0], as the program compares. *)
Definition sweepBody64 (polygonCoords : Ring64) (ptCoords : Position64)
    (i : nat) (st : Sweep64) : result Sweep64 :=
  currentCoords <- defined (nth_error polygonCoords i) ;;
  nextCoordPair <- defined
    (if Nat.eqb i (length polygonCoords - 1)
     then nth_error polygonCoords 0
     else nth_error polygonCoords (i + 1)) ;;
  let enext := isLeft64 currentCoords nextCoordPair ptCoords in
  if (st_eprev64 st <=? 0)%float && (0 <? enext)%float then
    r <- defined (st_rtan64 st) ;;
    Ok (mkSweep64 enext
          (if negb (isBelow64 ptCoords currentCoords r)
           then Some currentCoords else st_rtan64 st)
          (st_ltan64 st))
  else if (0 <? st_eprev64 st)%float && (enext <=? 0)%float then
    l <- defined (st_ltan64 st) ;;
    Ok (mkSweep64 enext
          (st_rtan64 st)
          (if negb (isAbove64 ptCoords currentCoords l)
           then Some currentCoords else st_ltan64 st))
  else
    Ok (mkSweep64 enext (st_rtan64 st) (st_ltan64 st)).

Fixpoint sweepLoop64 (polygonCoords : Ring64) (ptCoords : Position64)
    (n i : nat) (st : Sweep64) : result Sweep64 :=
  match n with
  | O => Ok st
  | S n' =>
      st' <- sweepBody64 polygonCoords ptCoords i st ;;
      sweepLoop64 polygonCoords ptCoords n' (S i) st'
  end.

Definition processPolygon64 (polygonCoords : Ring64) (ptCoords : Position64)
    (eprev : float) (rtan ltan : option Position64)
    : result (option Position64 * option Position64) :=
  st <- sweepLoop64 polygonCoords ptCoords (length polygonCoords) 0
          (mkSweep64 eprev rtan ltan) ;;
  Ok (st_rtan64 st, st_ltan64 st).

Definition insideBbox64 (pointCoords : Position64) (bbox : BBox64) : bool :=
  (minX64 bbox <? fst pointCoords)%float &&
  (fst pointCoords <? maxX64 bbox)%float &&
  (minY64 bbox <? snd pointCoords)%float &&
  (snd pointCoords <? maxY64 bbox)%float.

(** The walk of the MultiPolygon case, which reads the lengths of the rings
    only. *)
Fixpoint locateVertex64 (nearestPtIndex : nat) (rings : list Ring64) (i : nat)
    (closestFeature closestVertex verticesCounted : nat) : nat * nat :=
  match rings with
  | [] => (closestFeature, closestVertex)
  | ring :: rest =>
      let '(cv, vc, verticeFound) :=
        countVertices nearestPtIndex (length ring) 0 closestVertex verticesCounted in
      if verticeFound then (i, cv)
      else locateVertex64 nearestPtIndex rest (S i) i cv vc
  end.

Fixpoint sweepAll64 (polyCoords : list (list Ring64)) (ptCoords : Position64)
    (eprev : float) (rtan ltan : option Position64)
    : result (option Position64 * option Position64) :=
  match polyCoords with
  | [] => Ok (rtan, ltan)
  | ring :: rest =>
      outer <- defined (nth_error ring 0) ;;
      tans <- processPolygon64 outer ptCoords eprev rtan ltan ;;
      sweepAll64 rest ptCoords eprev (fst tans) (snd tans)
  end.

Section Resolver64.

Variable calcBbox64 : Geometry64 -> BBox64.
Variable explode64 : Geometry64 -> list Position64.
Variable nearestPoint64 : Position64 -> list Position64 -> result Nearest64.

Definition lookupNearest64 (pointCoords : Position64) (polygon : Geometry64)
    : result (option Nearest64) :=
  if insideBbox64 pointCoords (calcBbox64 polygon)
  then nearest <- nearestPoint64 pointCoords (explode64 polygon) ;;
       Ok (Some nearest)
  else Ok None.

Definition indexOf64 (nearest : option Nearest64) : nat :=
  match nearest with
  | Some n => featureIndex64 n
  | None => 0%nat
  end.

Definition polygonTangents64 (pt : Position64) (polygon : Geometry64)
    : result (option Position64 * option Position64) :=
  let pointCoords := pt in
  nearest <- lookupNearest64 pointCoords polygon ;;
  let nearestPtIndex := indexOf64 nearest in
  match polygon with
  | Polygon64 polyCoords =>
      ring0 <- defined (nth_error polyCoords 0) ;;
      let rtan := nth_error ring0 nearestPtIndex in
      let ltan := nth_error ring0 0 in
      let ltan :=
        match nearest with
        | Some n =>
            if (snd (coordinates64 n) <? snd pointCoords)%float
            then nth_error ring0 nearestPtIndex else ltan
        | None => ltan
        end in
      first <- defined (nth_error ring0 0) ;;
      last <- defined (at_index ring0 (Z.of_nat (length ring0) - 1)) ;;
      let eprev := isLeft64 first last pointCoords in
      processPolygon64 ring0 pointCoords eprev rtan ltan
  | MultiPolygon64 polyCoords =>
      poly0 <- defined (nth_error polyCoords 0) ;;
      let '(closestFeature, closestVertex) :=
        locateVertex64 nearestPtIndex poly0 0 0 0 0 in
      ringc <- defined (nth_error poly0 closestFeature) ;;
      let rtan := nth_error ringc closestVertex in
      let ltan := nth_error ringc closestVertex in
      ring00 <- defined (nth_error poly0 0) ;;
      first <- defined (nth_error ring00 0) ;;
      last <- defined (at_index ring00 (Z.of_nat (length ring00) - 1)) ;;
      let eprev := isLeft64 first last pointCoords in
      sweepAll64 polyCoords pointCoords eprev rtan ltan
  end.

End Resolver64.

(** *** Reflection, polygons and closed rings over binary64 *)

Definition mirror64 (p : Position64) : Position64 := (fst p, (- snd p)%float).

Definition mirrorGeometry64 (g : Geometry64) : Geometry64 :=
  match g with
  | Polygon64 rings => Polygon64 (map (map mirror64) rings)
  | MultiPolygon64 polys => MultiPolygon64 (map (map (map mirror64)) polys)
  end.

Definition polygonsOf64 (g : Geometry64) : list (list Ring64) :=
  match g with
  | Polygon64 rings => [rings]
  | MultiPolygon64 polys => polys
  end.

Inductive closedOuter64 : list Ring64 -> list Position64 -> Prop :=
| closedOuter64_intro (v0 v1 : Position64) (rest : list Position64)
    (holes : list Ring64) :
    closedOuter64 ((v0 :: v1 :: rest ++ [v0]) :: holes) (v0 :: v1 :: rest).

(** *** Computed and exact orientation *)

(** The rational that a finite binary64 number is; an infinity and NaN,
    which are no number, are sent to 0. *)
Definition exact (x : float) : Q :=
  match Prim2SF x with
  | S754_finite s m e =>
      (if s then - inject_Z (Zpos m) else inject_Z (Zpos m)) * 2 ^ e
  | _ => 0
  end.

Definition exactPosition (p : Position64) : Position := (exact (fst p), exact (snd p)).

(** The three comparisons the program makes of a computed orientation
    come out as they do for the exact number [x]. *)
Definition agrees (computed : float) (x : Q) : bool :=
  Bool.eqb (0 <? computed)%float (Qltb 0 x) &&
  Bool.eqb (computed <=? 0)%float (Qle_bool x 0) &&
  Bool.eqb (computed <? 0)%float (Qltb x 0).

(** Both coordinates are numbers: neither is an infinity or NaN. *)
Definition finite64 (p : Position64) : bool :=
  is_finite (fst p) && is_finite (snd p).

(** The coordinates of the reference point and of the points [pts] are
    finite, and rounding changes the outcome of no orientation test
    between the reference point and two of the points [pts]: of an edge
    seen from the point, and of a vertex against the ray to a candidate. *)
Definition exactOrientation (pt : Position64) (pts : list Position64) : bool :=
  finite64 pt && forallb finite64 pts &&
  forallb (fun a =>
    forallb (fun b =>
      agrees (isLeft64 a b pt)
        (isLeft (exactPosition a) (exactPosition b) (exactPosition pt)) &&
      agrees (isLeft64 pt a b)
        (isLeft (exactPosition pt) (exactPosition a) (exactPosition b)))
      pts) pts.

(** *** The reflected run *)

(** The edges of a ring in the order of the loop, the last one back to
    vertex 0. *)
Definition ringEdges64 (ring : Ring64) : list (Position64 * Position64) :=
  combine ring (tl ring ++ firstn 1 ring).

(** No edge of the ring has the computed orientation zero. *)
Definition noZeroEdge (pt : Position64) (ring : Ring64) : bool :=
  forallb (fun edge => negb (isLeft64 (fst edge) (snd edge) pt =? 0)%float)
    (ringEdges64 ring).

(** The orientation that seeds [eprev], computed on the ring [ring], is
    not zero. *)
Definition noZeroSeed (pt : Position64) (ring : Ring64) : bool :=
  match ring with
  | [] => true
  | first :: _ => negb (isLeft64 first (last ring first) pt =? 0)%float
  end.

(** No orientation of an edge that the resolver computes on [g], the seed
    of [eprev] included, is zero. *)
Definition noZeroOrientation (pt : Position64) (g : Geometry64) : bool :=
  match polygonsOf64 g with
  | [] => true
  | polygon :: _ =>
      match polygon with
      | [] => true
      | outer :: _ => noZeroSeed pt outer
      end
  end &&
  forallb (fun polygon =>
             match polygon with
             | [] => true
             | outer :: _ => noZeroEdge pt outer
             end) (polygonsOf64 g).

(** What the reflected input is claimed to return, in binary64. *)
Definition swapMirror64 (r : result (option Position64 * option Position64))
    : result (option Position64 * option Position64) :=
  match r with
  | Ok (rtan, ltan) => Ok (option_map mirror64 ltan, option_map mirror64 rtan)
  | Thrown => Thrown
  end.


(** The loop states of the run in binary64 and of the run on the exact
    numbers: the orientation state passes the same tests, the candidates
    are the same vertices, taken from [pts]. *)
Definition tracks (pts : list Position64) (st64 : Sweep64) (st : Sweep) : Prop :=
  (0 <? st_eprev64 st64)%float = Qltb 0 (st_eprev st) /\
  (st_eprev64 st64 <=? 0)%float = Qle_bool (st_eprev st) 0 /\
  st_rtan st = option_map exactPosition (st_rtan64 st64) /\
  st_ltan st = option_map exactPosition (st_ltan64 st64) /\
  (forall r, st_rtan64 st64 = Some r -> In r pts) /\
  (forall l, st_ltan64 st64 = Some l -> In l pts).

(** The outcome in binary64 and the outcome on the exact numbers are the
    same vertices of [pts], or the same exception. *)
Definition sameTangents (pts : list Position64)
    (r64 : result (option Position64 * option Position64))
    (r : result (option Position * option Position)) : Prop :=
  match r64, r with
  | Ok (rtan64, ltan64), Ok (rtan, ltan) =>
      rtan = option_map exactPosition rtan64 /\
      ltan = option_map exactPosition ltan64 /\
      (forall x, rtan64 = Some x -> In x pts) /\
      (forall x, ltan64 = Some x -> In x pts)
  | Thrown, Thrown => True
  | _, _ => False
  end.

(** *** The collaborators over binary64 *)

Definition vertices64 (g : Geometry64) : list Position64 :=
  match g with
  | Polygon64 rings => concat rings
  | MultiPolygon64 polys => concat (concat polys)
  end.

(** Modelled from the spec: [explode] of [@turf/explode], the flattened
    vertex list, over binary64. *)
Definition explode64 (g : Geometry64) : list Position64 := vertices64 g.

Definition bboxStep64 (b : BBox64) (q : Position64) : BBox64 :=
  mkBBox64 (if (fst q <? minX64 b)%float then fst q else minX64 b)
           (if (snd q <? minY64 b)%float then snd q else minY64 b)
           (if (maxX64 b <? fst q)%float then fst q else maxX64 b)
           (if (maxY64 b <? snd q)%float then snd q else maxY64 b).

(** Modelled from the spec: [bbox] of [@turf/bbox], the axis-aligned extent
    of all the vertices, over binary64; taking an extent rounds nothing. *)
Definition calcBbox64 (g : Geometry64) : BBox64 :=
  match vertices64 g with
  | [] => mkBBox64 0 0 0 0
  | p :: ps => fold_left bboxStep64 ps (mkBBox64 (fst p) (snd p) (fst p) (snd p))
  end.

Definition dist264 (a b : Position64) : float :=
  ((fst a - fst b) * (fst a - fst b) + (snd a - snd b) * (snd a - snd b))%float.

Fixpoint nearestFrom64 (target : Position64) (points : list Position64) (i : nat)
    (best : Nearest64) : Nearest64 :=
  match points with
  | [] => best
  | p :: rest =>
      nearestFrom64 target rest (S i)
        (if (dist264 target p <? dist264 target (coordinates64 best))%float
         then mkNearest64 i p else best)
  end.

(** Modelled from the spec: [nearestPoint] of [@turf/nearest-point], the
    closest vertex by Euclidean distance and its index in the flattened
    order, with the distances computed in binary64. *)
Definition nearestPoint64 (target : Position64) (points : list Position64)
    : result Nearest64 :=
  match points with
  | [] => Thrown
  | p :: rest => Ok (nearestFrom64 target rest 1 (mkNearest64 0 p))
  end.

(** The resolver over binary64 with the collaborators of the
    specification. *)
Definition tangents64
    : Position64 -> Geometry64 -> result (option Position64 * option Position64) :=
  polygonTangents64 calcBbox64 explode64 nearestPoint64.

(** *** Geometries over binary64 *)

Definition square64 : Ring64 := [(0, 0); (4, 0); (4, 4); (0, 4); (0, 0)]%float.

Definition triangle64 : Ring64 := [(0, 6); (3, 0); (5, 0); (0, 6)]%float.

(** A triangle left open: the stored ring does not repeat its first
    vertex. *)
Definition openTriangle64 : Ring64 := [(0, 0); (4, 0); (0, 4)]%float.

(** A triangle with integer coordinates whose first edge, seen from the
    origin, has the orientation 1 exactly, which binary64 computes as 0. *)
Definition sliver64 : Ring64 :=
  [(353454709, 425664383); (1017711075, 1225626214); (525264298, 614191760);
   (353454709, 425664383)]%float.

(** *** Supporting lines *)

(** [rtan] and [ltan] are among the points [pts]; no point of [pts] is right
    of the ray from [pt] to [rtan] and none is left of the ray to [ltan],
    both in the exact numbers that the coordinates are and as the program's
    comparators [isBelow] and [isAbove] compute it. *)
Definition supportingLines64 (pt : Position64) (pts : list Position64)
    (rtan ltan : Position64) : Prop :=
  In rtan pts /\ In ltan pts /\
  (forall v, In v pts ->
     0 <= isLeft (exactPosition pt) (exactPosition rtan) (exactPosition v) /\
     isBelow64 pt rtan v = false) /\
  (forall v, In v pts ->
     isLeft (exactPosition pt) (exactPosition ltan) (exactPosition v) <= 0 /\
     isAbove64 pt ltan v = false).

Definition squareEast64 : Ring64 :=
  [(10, 0); (14, 0); (14, 4); (10, 4); (10, 0)]%float.

Definition window64 : Ring64 := [(4, 4); (4, 7); (7, 7); (7, 4); (4, 4)]%float.

Definition dart64 : Ring64 := [(0, 4); (3, 2); (2, 0); (5, 1); (0, 4)]%float.

(** *** Computed numbers up to what the comparisons tell *)

(** A computed number that is a zero of either sign, or NaN. *)
Definition zeroOrNan (x : spec_float) : Prop :=
  match x with
  | S754_zero _ | S754_nan => True
  | _ => False
  end.

(** Two computed numbers that are the same, or two zeros: no comparison
    tells the sign of a zero. *)
Definition sameNumber (x y : spec_float) : Prop :=
  match x, y with
  | S754_zero _, S754_zero _ => True
  | _, _ => x = y
  end.

(** * Properties *)

(** ** Comparisons *)

Lemma Qltb_lt (x y : Q) : Qltb x y = true <-> x < y.
Proof.
  unfold Qltb. rewrite negb_true_iff.
  destruct (Qle_bool y x) eqn:E.
  - apply Qle_bool_iff in E. split; [discriminate | intro; exfalso; lra].
  - split; [intros _ | reflexivity].
    destruct (Qlt_le_dec x y) as [L | L]; [exact L |].
    apply Qle_bool_iff in L. congruence.
Qed.

Lemma Qltb_ge (x y : Q) : Qltb x y = false <-> y <= x.
Proof.
  unfold Qltb. rewrite negb_false_iff. apply Qle_bool_iff.
Qed.

Lemma Qle_bool_gt (x y : Q) : Qle_bool x y = false <-> y < x.
Proof.
  rewrite <- Qltb_lt. unfold Qltb. rewrite negb_true_iff. reflexivity.
Qed.

(** ** The scenarios, evaluated *)

Example square_edges :
  ringEdges square =
  [((0, 0), (4, 0)); ((4, 0), (4, 4)); ((4, 4), (0, 4)); ((0, 4), (0, 0));
   ((0, 0), (0, 0))].
Proof. reflexivity. Qed.

Example square_from_8_2 :
  tangents (8, 2) (Polygon [square]) = Ok (Some (4, 4), Some (4, 0)).
Proof. vm_compute. reflexivity. Qed.

(** ** Lists and indices *)

Lemma nth_error_combine {A B : Type} (l : list A) (l' : list B) (i : nat) :
  nth_error (combine l l') i =
  match nth_error l i, nth_error l' i with
  | Some a, Some b => Some (a, b)
  | _, _ => None
  end.
Proof.
  revert l' i. induction l as [| a l IH]; intros l' i.
  - destruct i; reflexivity.
  - destruct l' as [| b l'].
    + destruct i; simpl; [reflexivity |]. destruct (nth_error l i); reflexivity.
    + destruct i; simpl; [reflexivity | apply IH].
Qed.

(** The successor of vertex [i] on the ring, as the loop picks it. *)
Lemma nth_error_wrap (ring : Ring) (i : nat) :
  (i < length ring)%nat ->
  nth_error (tl ring ++ firstn 1 ring) i =
  if Nat.eqb i (length ring - 1) then nth_error ring 0 else nth_error ring (i + 1).
Proof.
  intros Hi. destruct ring as [| v0 ring]; [simpl in Hi; lia |].
  simpl tl. simpl firstn. simpl length.
  replace (S (length ring) - 1)%nat with (length ring) by lia.
  destruct (Nat.eqb_spec i (length ring)) as [-> | Hne].
  - rewrite nth_error_app2 by lia. rewrite Nat.sub_diag. reflexivity.
  - simpl in Hi. rewrite nth_error_app1 by lia.
    rewrite Nat.add_1_r. reflexivity.
Qed.

Lemma ringEdges_length (ring : Ring) : length (ringEdges ring) = length ring.
Proof.
  unfold ringEdges. rewrite length_combine, length_app.
  destruct ring as [| v0 ring]; simpl; [reflexivity |].
  rewrite Nat.add_1_r, Nat.min_id. reflexivity.
Qed.

Lemma nth_error_ringEdges (ring : Ring) (i : nat) (current : Position) :
  nth_error ring i = Some current ->
  exists next,
    (if Nat.eqb i (length ring - 1) then nth_error ring 0
     else nth_error ring (i + 1)) = Some next /\
    nth_error (ringEdges ring) i = Some (current, next).
Proof.
  intros Hc.
  assert (Hi : (i < length ring)%nat) by (apply nth_error_Some; congruence).
  unfold ringEdges. rewrite nth_error_combine, Hc, nth_error_wrap by exact Hi.
  rewrite <- nth_error_wrap by exact Hi.
  destruct (nth_error (tl ring ++ firstn 1 ring) i) as [next |] eqn:E.
  - exists next. split; reflexivity.
  - exfalso. apply nth_error_None in E. rewrite length_app in E.
    destruct ring; simpl in *; lia.
Qed.

Lemma skipn_nth_error {A : Type} (l : list A) (i : nat) (a : A) :
  nth_error l i = Some a -> skipn i l = a :: skipn (S i) l.
Proof.
  revert i. induction l as [| b l IH]; intros [| i] H; simpl in *; try discriminate.
  - congruence.
  - apply IH. exact H.
Qed.

(** ** The orientation predicate *)

(** C7: [isLeft] is the cross product of the specification; [isAbove] is its
    strict positivity and [isBelow] its strict negativity, so a collinear
    triple is neither above nor below. *)
Theorem orientation_predicate (p1 p2 p3 : Position) :
  isLeft p1 p2 p3 =
    (fst p2 - fst p1) * (snd p3 - snd p1) - (fst p3 - fst p1) * (snd p2 - snd p1)
  /\ (isAbove p1 p2 p3 = true <-> 0 < isLeft p1 p2 p3)
  /\ (isBelow p1 p2 p3 = true <-> isLeft p1 p2 p3 < 0)
  /\ (isLeft p1 p2 p3 == 0 -> isAbove p1 p2 p3 = false /\ isBelow p1 p2 p3 = false).
Proof.
  split; [reflexivity |]. split; [apply Qltb_lt |]. split; [apply Qltb_lt |].
  intros H. unfold isAbove, isBelow. rewrite !Qltb_ge, H. split; apply Qle_refl.
Qed.

(** ** The sweep *)

Lemma sweepBody_edge (ring : Ring) (pt : Position) (i : nat)
    (current next : Position) (st : Q * Position * Position) :
  nth_error ring i = Some current ->
  (if Nat.eqb i (length ring - 1) then nth_error ring 0
   else nth_error ring (i + 1)) = Some next ->
  sweepBody ring pt i (sweepOf st) = Ok (sweepOf (sweepEdge pt st (current, next))).
Proof.
  intros Hc Hn. destruct st as [[e r] l].
  unfold sweepBody, sweepEdge, sweepOf. rewrite Hc, Hn. simpl.
  destruct (Qlt_le_dec 0 e) as [He | He];
    destruct (Qlt_le_dec 0 (isLeft current next pt)) as [Hx | Hx].
  - apply Qle_bool_gt in He. apply Qle_bool_gt in Hx. rewrite He, Hx.
    apply Qle_bool_gt, Qltb_lt in He. rewrite He. reflexivity.
  - apply Qltb_ge in Hx. rewrite Hx, andb_false_r.
    apply Qltb_lt in He. rewrite He.
    apply Qltb_ge, Qle_bool_iff in Hx. rewrite Hx. simpl.
    destruct (isAbove pt current l); reflexivity.
  - apply Qle_bool_iff in He. apply Qltb_lt in Hx. rewrite He, Hx. simpl.
    destruct (isBelow pt current r); reflexivity.
  - apply Qltb_ge in Hx. rewrite Hx, andb_false_r.
    apply Qltb_ge in He. rewrite He. reflexivity.
Qed.

Lemma sweepLoop_edges (ring : Ring) (pt : Position) (n i : nat)
    (st : Q * Position * Position) :
  (i + n = length ring)%nat ->
  sweepLoop ring pt n i (sweepOf st) =
  Ok (sweepOf (fold_left (sweepEdge pt) (skipn i (ringEdges ring)) st)).
Proof.
  revert i st. induction n as [| n IH]; intros i st Hlen.
  - rewrite skipn_all2 by (rewrite ringEdges_length; lia). reflexivity.
  - destruct (nth_error ring i) as [current |] eqn:Hc.
    2: { apply nth_error_None in Hc. lia. }
    destruct (nth_error_ringEdges ring i Hc) as (next & Hn & He).
    simpl. rewrite (sweepBody_edge ring pt i st Hc Hn). simpl.
    rewrite IH by lia. rewrite (skipn_nth_error _ _ He). reflexivity.
Qed.

(** On defined candidates the loop never throws and folds [sweepEdge] over
    the edges. *)
Lemma processPolygon_defined (ring : Ring) (pt : Position) (e : Q)
    (r l : Position) :
  processPolygon ring pt e (Some r) (Some l) =
  let '(_, r', l') := fold_left (sweepEdge pt) (ringEdges ring) (e, r, l) in
  Ok (Some r', Some l').
Proof.
  unfold processPolygon.
  change (mkSweep e (Some r) (Some l)) with (sweepOf (e, r, l)).
  rewrite sweepLoop_edges by lia. simpl skipn.
  destruct (fold_left (sweepEdge pt) (ringEdges ring) (e, r, l)) as [[e' r'] l'].
  reflexivity.
Qed.


(** C8: the square seen from (8, 2), a point outside its bounding box,
    whatever the vertex extraction and the nearest-point search are. *)
Theorem square_scenario
    (explode' : Geometry -> list Position)
    (nearestPoint' : Position -> list Position -> result Nearest) :
  polygonTangents calcBbox explode' nearestPoint' (8, 2) (Polygon [square]) =
  Ok (Some (4, 4), Some (4, 0)).
Proof. vm_compute. reflexivity. Qed.

(** ** The resolver *)

Lemma insideBbox_true (pt : Position) (b : BBox) :
  insideBbox pt b = true <->
  minX b < fst pt /\ fst pt < maxX b /\ minY b < snd pt /\ snd pt < maxY b.
Proof.
  unfold insideBbox. rewrite !andb_true_iff, !Qltb_lt. tauto.
Qed.

Lemma at_index_last {A : Type} (arr : list A) (d : A) :
  arr <> [] -> at_index arr (Z.of_nat (length arr) - 1) = Some (last arr d).
Proof.
  intros Hne. unfold at_index.
  destruct (Z.ltb_spec (Z.of_nat (length arr) - 1) 0) as [H | H].
  - destruct arr; [congruence | simpl length in H; lia].
  - replace (Z.to_nat (Z.of_nat (length arr) - 1)) with (length arr - 1)%nat by lia.
    destruct (exists_last Hne) as (body & a & ->).
    rewrite last_last, length_app, nth_error_app2 by (simpl; lia).
    simpl length. replace (length body + 1 - 1 - length body)%nat with 0%nat by lia.
    reflexivity.
Qed.

(** C4: the Polygon case.  The lookup runs exactly when the reference point
    is strictly inside the bounding box on both axes; [rtan] starts at the
    outer ring's entry at the nearest index (the first vertex without a
    lookup), [ltan] at the first vertex unless a lookup found a vertex
    strictly below the reference point, and [eprev] at the orientation of
    (first vertex, last stored vertex, reference point). *)
Theorem polygon_seeds
    (calcBbox' : Geometry -> BBox)
    (explode' : Geometry -> list Position)
    (nearestPoint' : Position -> list Position -> result Nearest)
    (pt first : Position) (rest : Ring) (holes : list Ring) :
  let outer := first :: rest in
  let polygon := Polygon (outer :: holes) in
  let bbox := calcBbox' polygon in
  let eprev := isLeft first (last outer first) pt in
  (minX bbox < fst pt /\ fst pt < maxX bbox /\
   minY bbox < snd pt /\ snd pt < maxY bbox ->
   lookupNearest calcBbox' explode' nearestPoint' pt polygon =
     (n <- nearestPoint' pt (explode' polygon) ;; Ok (Some n)) /\
   polygonTangents calcBbox' explode' nearestPoint' pt polygon =
     (n <- nearestPoint' pt (explode' polygon) ;;
      let atNearest := nth_error outer (featureIndex n) in
      processPolygon outer pt eprev atNearest
        (if Qlt_le_dec (snd (coordinates n)) (snd pt)
         then atNearest else Some first)))
  /\
  (~ (minX bbox < fst pt /\ fst pt < maxX bbox /\
      minY bbox < snd pt /\ snd pt < maxY bbox) ->
   lookupNearest calcBbox' explode' nearestPoint' pt polygon = Ok None /\
   polygonTangents calcBbox' explode' nearestPoint' pt polygon =
     processPolygon outer pt eprev (Some first) (Some first)).
Proof.
  intros outer polygon bbox eprev.
  assert (Hlast : at_index outer (Z.of_nat (length outer) - 1)
                  = Some (last outer first))
    by (apply at_index_last; discriminate).
  subst eprev bbox polygon outer.
  split; intros H.
  - apply insideBbox_true in H. unfold polygonTangents, lookupNearest.
    rewrite H. split; [reflexivity |].
    destruct (nearestPoint' pt _) as [n |]; [| reflexivity].
    cbn [bind defined nth_error indexOf]. rewrite Hlast. cbn [bind defined].
    destruct (Qlt_le_dec (snd (coordinates n)) (snd pt)) as [L | L].
    + apply Qltb_lt in L. rewrite L. reflexivity.
    + apply Qltb_ge in L. rewrite L. reflexivity.
  - assert (Hout : insideBbox pt (calcBbox' (Polygon ((first :: rest) :: holes)))
                   = false).
    { destruct (insideBbox pt _) eqn:E; [| reflexivity].
      apply insideBbox_true in E. contradiction. }
    unfold polygonTangents, lookupNearest. rewrite Hout.
    split; [reflexivity |].
    cbn [bind defined nth_error indexOf]. rewrite Hlast. reflexivity.
Qed.

Lemma sweepOuterRings_thrown (polys : list (list Ring)) (pt : Position) (e : Q) :
  fold_left
    (fun acc polygon =>
       tans <- acc ;;
       outer <- defined (hd_error polygon) ;;
       processPolygon outer pt e (fst tans) (snd tans))
    polys Thrown = Thrown.
Proof. induction polys as [| p polys IH]; [reflexivity | exact IH]. Qed.

Lemma sweepAll_sweepOuterRings (polys : list (list Ring)) (pt : Position)
    (e : Q) (r l : option Position) :
  sweepAll polys pt e r l = sweepOuterRings polys pt e r l.
Proof.
  unfold sweepOuterRings. revert r l.
  induction polys as [| p polys IH]; intros r l; [reflexivity |].
  destruct p as [| outer holes];
    cbn [sweepAll fold_left nth_error hd_error defined bind fst snd].
  - symmetry. apply sweepOuterRings_thrown.
  - destruct (processPolygon outer pt e r l) as [[r' l'] |]; cbn [bind fst snd].
    + apply IH.
    + symmetry. apply sweepOuterRings_thrown.
Qed.

(** C6: the MultiPolygon case.  [eprev] is computed once, from the first and
    the last stored vertex of the first polygon's outer ring; every
    polygon's outer ring is then swept in input order from that same
    [eprev], with the candidates of the previous sweep. *)
Theorem multipolygon_sweeps
    (calcBbox' : Geometry -> BBox)
    (explode' : Geometry -> list Position)
    (nearestPoint' : Position -> list Position -> result Nearest)
    (pt first : Position) (rest : Ring) (holes : list Ring)
    (others : list (list Ring)) :
  let outer := first :: rest in
  let polys := (outer :: holes) :: others in
  let eprev := isLeft first (last outer first) pt in
  polygonTangents calcBbox' explode' nearestPoint' pt (MultiPolygon polys) =
    (nearest <- lookupNearest calcBbox' explode' nearestPoint' pt (MultiPolygon polys) ;;
     let found := locateVertex (indexOf nearest) (outer :: holes) 0 0 0 0 in
     ring <- defined (nth_error (outer :: holes) (fst found)) ;;
     let seed := nth_error ring (snd found) in
     sweepOuterRings polys pt eprev seed seed).
Proof.
  intros outer polys eprev. subst eprev polys outer. unfold polygonTangents.
  destruct (lookupNearest calcBbox' explode' nearestPoint' pt _)
    as [nearest |]; [| reflexivity].
  cbn [bind defined nth_error].
  destruct (locateVertex (indexOf nearest) _ 0 0 0 0) as [cf cv].
  cbn [fst snd]. unfold Ring in *.
  destruct (nth_error ((first :: rest) :: holes) cf) as [ring |]; [| reflexivity].
  cbn [bind defined nth_error].
  rewrite (@at_index_last _ (first :: rest) first) by discriminate.
  cbn [bind defined]. apply sweepAll_sweepOuterRings.
Qed.

(** ** The closing edge *)

Lemma isLeft_degenerate (c pt : Position) : isLeft c c pt == 0.
Proof. unfold isLeft. ring. Qed.

(** C5, as the specification words it, fails: the closing edge of the
    triangle, of orientation zero, moves [ltan] from (3, 0) to (0, 6), which
    is the left tangent the resolver returns. *)
Lemma closing_edge_updates_ltan :
  last triangle (0, 0) = hd (0, 0) triangle /\
  lookupNearest calcBbox explode nearestPoint (1, 2) (Polygon [triangle]) =
    Ok (Some (mkNearest 1 (3, 0))) /\
  sweepLoop triangle (1, 2) 3 0 (mkSweep 0 (Some (3, 0)) (Some (3, 0))) =
    Ok (mkSweep 14 (Some (3, 0)) (Some (3, 0))) /\
  sweepBody triangle (1, 2) 3 (mkSweep 14 (Some (3, 0)) (Some (3, 0))) =
    Ok (mkSweep 0 (Some (3, 0)) (Some (0, 6))) /\
  tangents (1, 2) (Polygon [triangle]) = Ok (Some (3, 0), Some (0, 6)).
Proof. repeat split; vm_compute; reflexivity. Qed.

(** ** Seeds that miss the nearest vertex *)

(** C3 at two disjoint squares and a reference point nearest to a vertex of
    the second: the nearest vertex has flattened index 5, the first vertex of
    the second square, but the walk covers the rings of the first polygon
    only and stops at the last entry of the first square, which seeds both
    candidates; seeded at the nearest vertex the sweeps would return another
    left tangent. *)
Theorem two_squares_seed :
  lookupNearest calcBbox explode nearestPoint (8, 1) twoSquares =
    Ok (Some (mkNearest 5 (10, 0))) /\
  nth_error (explode twoSquares) 5 = nth_error squareEast 0 /\
  locateVertex 5 [square] 0 0 0 0 = (0%nat, 4%nat) /\
  nth_error square 4 = Some (0, 0) /\
  ~ In (0, 0) squareEast /\
  tangents (8, 1) twoSquares =
    sweepOuterRings [[square]; [squareEast]] (8, 1) 0 (Some (0, 0)) (Some (0, 0)) /\
  tangents (8, 1) twoSquares = Ok (Some (10, 0), Some (4, 0)) /\
  sweepOuterRings [[square]; [squareEast]] (8, 1) 0 (Some (10, 0)) (Some (10, 0)) =
    Ok (Some (10, 0), Some (10, 4)).
Proof.
  repeat split; try (vm_compute; reflexivity).
  simpl. intros H. repeat (destruct H as [H | H]; [discriminate H |]). exact H.
Qed.

(** C1 at a polygon with a hole and a reference point inside the hole: the
    nearest vertex is the hole's first, of flattened index 5; the outer ring
    has no entry 5, both candidates start undefined, and the first right
    candidate of the sweep reads an index of [undefined]: no tangent point is
    returned. *)
Theorem hole_vertex_nearest :
  lookupNearest calcBbox explode nearestPoint (5, 5) (Polygon [frame; window]) =
    Ok (Some (mkNearest 5 (4, 4))) /\
  nth_error frame 5 = None /\
  sweepBody frame (5, 5) 0 (mkSweep 0 None None) = Thrown /\
  tangents (5, 5) (Polygon [frame; window]) = Thrown.
Proof. repeat split; vm_compute; reflexivity. Qed.

(** C10: the Polygon case seeds [rtan], and [ltan] when the nearest vertex
    is below the reference point, by indexing the outer ring at the
    flattened index of the lookup, whatever that index is; an index at or
    past the length of the outer ring reads no vertex there; and there is a
    polygon with a hole and a reference point strictly inside its bounding
    box whose nearest vertex is a vertex of the hole and below the
    reference point: its flattened index is past the end of the outer ring,
    both candidates are seeded with no vertex, the sweep runs from these
    seeds, and the two values the resolver hands to [point] are no vertex
    of the geometry. *)
Theorem hole_index_out_of_bounds :
  (forall (calcBbox' : Geometry -> BBox) (explode' : Geometry -> list Position)
          (nearestPoint' : Position -> list Position -> result Nearest)
          (pt : Position) (outer : Ring) (holes : list Ring) (n : Nearest),
     lookupNearest calcBbox' explode' nearestPoint' pt (Polygon (outer :: holes)) =
       Ok (Some n) ->
     polygonTangents calcBbox' explode' nearestPoint' pt (Polygon (outer :: holes)) =
       (first <- defined (nth_error outer 0) ;;
        last <- defined (at_index outer (Z.of_nat (length outer) - 1)) ;;
        processPolygon outer pt (isLeft first last pt)
          (nth_error outer (featureIndex n))
          (if Qltb (snd (coordinates n)) (snd pt)
           then nth_error outer (featureIndex n)
           else nth_error outer 0))) /\
  (forall (outer : Ring) (n : Nearest),
     (length outer <= featureIndex n)%nat ->
     nth_error outer (featureIndex n) = None) /\
  exists (outer : Ring) (holes : list Ring) (pt : Position) (n : Nearest),
    holes <> [] /\
    explode (Polygon (outer :: holes)) = outer ++ concat holes /\
    insideBbox pt (calcBbox (Polygon (outer :: holes))) = true /\
    nearestPoint pt (explode (Polygon (outer :: holes))) = Ok n /\
    lookupNearest calcBbox explode nearestPoint pt (Polygon (outer :: holes)) =
      Ok (Some n) /\
    In (coordinates n) (concat holes) /\
    ~ In (coordinates n) outer /\
    nth_error (explode (Polygon (outer :: holes))) (featureIndex n) =
      Some (coordinates n) /\
    (length outer <= featureIndex n)%nat /\
    snd (coordinates n) < snd pt /\
    nth_error outer (featureIndex n) = None /\
    tangents pt (Polygon (outer :: holes)) =
      (first <- defined (nth_error outer 0) ;;
       last <- defined (at_index outer (Z.of_nat (length outer) - 1)) ;;
       processPolygon outer pt (isLeft first last pt) None None) /\
    tangents pt (Polygon (outer :: holes)) = Ok (None, None).
Proof.
  split; [| split].
  - intros calcBbox' explode' nearestPoint' pt outer holes n Hlook.
    unfold polygonTangents. rewrite Hlook. reflexivity.
  - intros outer n H. apply nth_error_None. exact H.
  - exists frameCw, [windowCcw], (5, 5), (mkNearest 5 (4, 4)).
    repeat split; try (vm_compute; reflexivity).
    + discriminate.
    + simpl. left. reflexivity.
    + simpl. intros H.
      repeat (destruct H as [H | H]; [discriminate H |]). exact H.
Qed.

(** ** Candidates are stored vertices *)

Lemma nth_error_vertex (vs : list Position) (ring : Ring) (i : nat) :
  incl ring vs -> vertexOrUndefined vs (nth_error ring i).
Proof.
  intros Hin. destruct (nth_error ring i) as [p |] eqn:E; [| exact I].
  apply Hin. apply (@nth_error_In _ ring i _ E).
Qed.

Lemma sweepBody_vertices (vs : list Position) (ring : Ring) (pt : Position)
    (i : nat) (st st' : Sweep) :
  incl ring vs ->
  vertexOrUndefined vs (st_rtan st) -> vertexOrUndefined vs (st_ltan st) ->
  sweepBody ring pt i st = Ok st' ->
  vertexOrUndefined vs (st_rtan st') /\ vertexOrUndefined vs (st_ltan st').
Proof.
  intros Hin Hr Hl. unfold sweepBody.
  destruct (nth_error ring i) as [cur |] eqn:Hc; [| discriminate].
  apply nth_error_In, Hin in Hc. cbn [defined bind].
  destruct (defined (if Nat.eqb i (length ring - 1) then nth_error ring 0
                     else nth_error ring (i + 1))) as [next |];
    [| discriminate].
  cbn [bind].
  destruct (Qle_bool (st_eprev st) 0 && Qltb 0 (isLeft cur next pt)).
  - destruct (st_rtan st) as [r |]; [| discriminate]. cbn [defined bind].
    intros E. inversion E; subst st'; clear E. cbn [st_rtan st_ltan].
    split; [| exact Hl]. destruct (negb (isBelow pt cur r)); assumption.
  - destruct (Qltb 0 (st_eprev st) && Qle_bool (isLeft cur next pt) 0).
    + destruct (st_ltan st) as [l |]; [| discriminate]. cbn [defined bind].
      intros E. inversion E; subst st'; clear E. cbn [st_rtan st_ltan].
      split; [exact Hr |]. destruct (negb (isAbove pt cur l)); assumption.
    + intros E. inversion E; subst st'; clear E. split; assumption.
Qed.

Lemma sweepLoop_vertices (vs : list Position) (ring : Ring) (pt : Position)
    (n : nat) :
  incl ring vs ->
  forall (i : nat) (st st' : Sweep),
  vertexOrUndefined vs (st_rtan st) -> vertexOrUndefined vs (st_ltan st) ->
  sweepLoop ring pt n i st = Ok st' ->
  vertexOrUndefined vs (st_rtan st') /\ vertexOrUndefined vs (st_ltan st').
Proof.
  intros Hin. induction n as [| n IH]; intros i st st' Hr Hl; simpl.
  - intros E. inversion E; subst. split; assumption.
  - destruct (sweepBody ring pt i st) as [st1 |] eqn:E1; [| discriminate].
    destruct (@sweepBody_vertices vs ring pt i st st1 Hin Hr Hl E1) as [Hr1 Hl1].
    cbn [bind]. apply IH; assumption.
Qed.

Lemma processPolygon_vertices (vs : list Position) (ring : Ring)
    (pt : Position) (e : Q) (r l r' l' : option Position) :
  incl ring vs ->
  vertexOrUndefined vs r -> vertexOrUndefined vs l ->
  processPolygon ring pt e r l = Ok (r', l') ->
  vertexOrUndefined vs r' /\ vertexOrUndefined vs l'.
Proof.
  intros Hin Hr Hl. unfold processPolygon.
  destruct (sweepLoop ring pt (length ring) 0 (mkSweep e r l)) as [st |] eqn:E;
    [| discriminate].
  cbn [bind]. intros H. inversion H; subst.
  apply (@sweepLoop_vertices vs ring pt (length ring) Hin 0 (mkSweep e r l));
    assumption.
Qed.

Lemma sweepAll_vertices (vs : list Position) (pt : Position) (e : Q)
    (polys : list (list Ring)) :
  (forall p ring, In p polys -> In ring p -> incl ring vs) ->
  forall r l r' l' : option Position,
  vertexOrUndefined vs r -> vertexOrUndefined vs l ->
  sweepAll polys pt e r l = Ok (r', l') ->
  vertexOrUndefined vs r' /\ vertexOrUndefined vs l'.
Proof.
  induction polys as [| p polys IH]; intros Hin r l r' l' Hr Hl;
    cbn [sweepAll].
  - intros E. inversion E; subst. split; assumption.
  - destruct (nth_error p 0) as [outer |] eqn:E0; [| discriminate].
    cbn [defined bind].
    destruct (processPolygon outer pt e r l) as [[r1 l1] |] eqn:E1;
      [| discriminate].
    cbn [bind fst snd].
    assert (Ho : incl outer vs).
    { apply (Hin p outer); [left; reflexivity |].
      apply (@nth_error_In _ p 0 _ E0). }
    destruct (@processPolygon_vertices vs outer pt e r l r1 l1 Ho Hr Hl E1)
      as [Hr1 Hl1].
    apply IH; [| assumption | assumption].
    intros q ring Hq. apply Hin. right. exact Hq.
Qed.

(** Whatever the collaborators return, a point that the resolver hands to
    the result is a stored vertex of the geometry, unless it is
    [undefined]. *)
Theorem candidates_are_vertices
    (calcBbox' : Geometry -> BBox)
    (explode' : Geometry -> list Position)
    (nearestPoint' : Position -> list Position -> result Nearest)
    (pt : Position) (g : Geometry) (rtan ltan : option Position) :
  polygonTangents calcBbox' explode' nearestPoint' pt g = Ok (rtan, ltan) ->
  vertexOrUndefined (vertices g) rtan /\ vertexOrUndefined (vertices g) ltan.
Proof.
  unfold polygonTangents.
  destruct (lookupNearest calcBbox' explode' nearestPoint' pt g)
    as [nearest |]; [| discriminate].
  cbn [bind]. destruct g as [rings | polys]; cbn [vertices].
  - destruct (nth_error rings 0) as [ring0 |] eqn:E0; [| discriminate].
    cbn [defined bind].
    assert (Hin : incl ring0 (concat rings)).
    { intros v Hv. apply in_concat. exists ring0.
      split; [apply (@nth_error_In _ rings 0 _ E0) | exact Hv]. }
    destruct (defined (nth_error ring0 0)) as [first |]; [| discriminate].
    cbn [bind].
    destruct (defined (at_index ring0 (Z.of_nat (length ring0) - 1)))
      as [last |]; [| discriminate].
    cbn [bind]. apply processPolygon_vertices; [exact Hin | |].
    + apply nth_error_vertex. exact Hin.
    + destruct nearest as [n |]; [| apply nth_error_vertex; exact Hin].
      destruct (Qltb (snd (coordinates n)) (snd pt));
        apply nth_error_vertex; exact Hin.
  - destruct (nth_error polys 0) as [poly0 |] eqn:E0; [| discriminate].
    cbn [defined bind].
    destruct (locateVertex (indexOf nearest) poly0 0 0 0 0) as [cf cv].
    destruct (nth_error poly0 cf) as [ringc |] eqn:Ec; [| discriminate].
    cbn [defined bind].
    destruct (defined (nth_error poly0 0)) as [ring00 |]; [| discriminate].
    cbn [bind].
    destruct (defined (nth_error ring00 0)) as [first |]; [| discriminate].
    cbn [bind].
    destruct (defined (at_index ring00 (Z.of_nat (length ring00) - 1)))
      as [last |]; [| discriminate].
    cbn [bind].
    assert (Hall : forall p ring, In p polys -> In ring p ->
                                  incl ring (concat (concat polys))).
    { intros p ring Hp Hring v Hv. apply in_concat. exists ring.
      split; [| exact Hv]. apply in_concat. exists p. split; assumption. }
    assert (Hc : incl ringc (concat (concat polys))).
    { apply (Hall poly0 ringc);
        [apply (@nth_error_In _ polys 0 _ E0)
        | apply (@nth_error_In _ poly0 cf _ Ec)]. }
    apply sweepAll_vertices; [exact Hall | |]; apply nth_error_vertex; exact Hc.
Qed.

Lemma candidates_are_vertices_witness :
  vertexOrUndefined (vertices (Polygon [triangle])) (Some (3, 0)) /\
  vertexOrUndefined (vertices (Polygon [triangle])) (Some (0, 6)).
Proof.
  apply (@candidates_are_vertices calcBbox explode nearestPoint (1, 2)
           (Polygon [triangle]) (Some (3, 0)) (Some (0, 6))).
  vm_compute. reflexivity.
Defined.

(** ** The order around the reference point *)

(** Seen from a reference point that is not strictly inside the bounding
    box, the vertices lie in an open half-plane, where [before] is a total preorder; the sweep walks
    the ring up and down that order, offers every valley as a right
    candidate and every peak as a left candidate, and ends on the first and
    the last vertex of the order. *)

Lemma isLeft_anti (p a b : Position) : isLeft p a b == - isLeft p b a.
Proof. unfold isLeft. ring. Qed.

Section Order.

Variables pt d : Position.

Lemma before_refl (a : Position) : before pt a a.
Proof. unfold before, isLeft. ring_simplify. apply Qle_refl. Qed.

Lemma cross_side (a b c : Position) :
  isLeft pt a c * side pt d b ==
  isLeft pt a b * side pt d c + isLeft pt b c * side pt d a.
Proof. unfold isLeft, side. ring. Qed.

(** In the half-plane [0 < side pt d _] the order is transitive. *)
Lemma before_trans (a b c : Position) :
  before pt a b -> before pt b c ->
  0 < side pt d a -> 0 < side pt d b -> 0 < side pt d c ->
  before pt a c.
Proof.
  unfold before. intros Hab Hbc Ha Hb Hc.
  pose proof (cross_side a b c) as E.
  destruct (Qlt_le_dec (isLeft pt a c) 0) as [L | L]; [exfalso | exact L].
  nra.
Qed.

(** An edge of positive orientation goes up the order, any other down. *)
Lemma edge_up (cur next : Position) :
  0 < isLeft cur next pt -> before pt cur next.
Proof. unfold before, isLeft. intros. nra. Qed.

Lemma edge_down (cur next : Position) :
  isLeft cur next pt <= 0 -> before pt next cur.
Proof. unfold before, isLeft. intros. nra. Qed.

Lemma isBelow_keep (cur r : Position) :
  isBelow pt cur r = true -> before pt r cur.
Proof. unfold isBelow. rewrite Qltb_lt. unfold before, isLeft. intros. nra. Qed.

Lemma isBelow_take (cur r : Position) :
  isBelow pt cur r = false -> before pt cur r.
Proof. unfold isBelow. rewrite Qltb_ge. unfold before. tauto. Qed.

Lemma isAbove_keep (cur l : Position) :
  isAbove pt cur l = true -> before pt cur l.
Proof. unfold isAbove. rewrite Qltb_lt. unfold before. intros. lra. Qed.

Lemma isAbove_take (cur l : Position) :
  isAbove pt cur l = false -> before pt l cur.
Proof. unfold isAbove. rewrite Qltb_ge. unfold before, isLeft. intros. nra. Qed.

Lemma before_tie (a b : Position) :
  before pt a b -> before pt b a -> isLeft pt a b == 0.
Proof. unfold before, isLeft. intros. nra. Qed.

Variables v0 rin lin : Position.

Hypothesis Hv0 : 0 < side pt d v0.
Hypothesis Hrin : 0 < side pt d rin.
Hypothesis Hlin : 0 < side pt d lin.

(** A vertex is in the half-plane by assumption. *)
Ltac sidec :=
  match goal with
  | |- 0 < side pt d _ =>
      first
        [ assumption
        | match goal with
          | H : forall v, In v _ -> 0 < side pt d v |- _ => apply H; assumption
          end ]
  end.

(** [before pt a c] from at most three facts of the context, chained. *)
Ltac ord :=
  match goal with
  | |- before pt ?a ?a => apply before_refl
  | H : before pt ?a ?b |- before pt ?a ?b => exact H
  | H1 : before pt ?a ?b, H2 : before pt ?b ?c |- before pt ?a ?c =>
      apply (@before_trans a b c H1 H2); sidec
  | H1 : before pt ?a ?b, H2 : before pt ?b ?c, H3 : before pt ?c ?e
    |- before pt ?a ?e =>
      apply (@before_trans a b e H1);
        [apply (@before_trans b c e H2 H3) | ..]; sidec
  end.

Ltac ords := first [ord | left; ords | right; ords].

Lemma descending_step (seen : list Position) (cur next : Position) :
  (forall v, In v seen -> 0 < side pt d v) ->
  0 < side pt d cur -> 0 < side pt d next ->
  before pt next cur ->
  descending pt v0 cur seen -> descending pt v0 next (cur :: seen).
Proof.
  intros Hseen Hcur Hnext Hnc [D1 D2]. split; [ord |].
  intros v [<- | Hv]; [split; ord |].
  destruct (D2 v Hv) as [D3 D4]. pose proof (Hseen v Hv). split; ord.
Qed.

(** One edge of the sweep keeps the invariant. *)
Lemma sweepInv_step (seen : list Position) (cur next : Position)
    (st : Q * Position * Position) :
  (forall v, In v seen -> 0 < side pt d v) ->
  0 < side pt d cur -> 0 < side pt d next ->
  sweepInv pt d v0 rin lin seen cur st ->
  sweepInv pt d v0 rin lin (cur :: seen) next (sweepEdge pt st (cur, next)).
Proof.
  intros Hseen Hcur Hnext. destruct st as [[e r] l].
  intros (Hr & Hl & Mr & Ml & Sr & Sl & RA & RB & RD & LA & LB).
  unfold sweepEdge.
  destruct (Qlt_le_dec 0 e) as [He | He];
    destruct (Qlt_le_dec 0 (isLeft cur next pt)) as [Hx | Hx].
  - (* rising into [cur], rising out of it *)
    pose proof (@edge_up _ _ Hx) as Hcn. pose proof (RB He) as Hrc.
    unfold sweepInv. repeat split; try assumption.
    + destruct Mr; [left | right; right]; assumption.
    + destruct Ml; [left | right; right]; assumption.
    + intros v [<- | Hv]; [ords |].
      pose proof (Hseen v Hv). destruct (RA v Hv); ords.
    + intros _. ord.
    + destruct RD as [RD | [D1 D2]]; ords.
    + intros v [<- | Hv]; [ords |].
      pose proof (Hseen v Hv). destruct (LA v Hv) as [? | [? | ?]]; ords.
    + intros Hc. exfalso. lra.
  - (* a peak at [cur]: a left candidate *)
    pose proof (@edge_down _ _ Hx) as Hnc. pose proof (RB He) as Hrc.
    assert (exists l', (if isAbove pt cur l then l else cur) = l' /\
                       0 < side pt d l' /\ (l' = lin \/ In l' (cur :: seen)) /\
                       before pt l l' /\ before pt cur l')
      as (l' & -> & Hl' & Ml' & Hll & Hcl).
    { destruct (isAbove pt cur l) eqn:E.
      - exists l. repeat split; try assumption.
        + destruct Ml; [left | right; right]; assumption.
        + apply before_refl.
        + apply isAbove_keep. exact E.
      - exists cur. repeat split; try assumption.
        + right. left. reflexivity.
        + apply isAbove_take. exact E.
        + apply before_refl. }
    unfold sweepInv. repeat split; try assumption.
    + destruct Mr; [left | right; right]; assumption.
    + ord.
    + intros v [<- | Hv]; [ords |].
      pose proof (Hseen v Hv). destruct (RA v Hv); ords.
    + intros Hc. exfalso. lra.
    + destruct RD as [RD | [D1 D2]]; ords.
    + intros v [<- | Hv]; [ords |].
      pose proof (Hseen v Hv). destruct (LA v Hv) as [? | [? | ?]]; ords.
    + intros _. ords.
  - (* a valley at [cur]: a right candidate *)
    pose proof (@edge_up _ _ Hx) as Hcn.
    assert (exists r', (if isBelow pt cur r then r else cur) = r' /\
                       0 < side pt d r' /\ (r' = rin \/ In r' (cur :: seen)) /\
                       before pt r' r /\ before pt r' cur)
      as (r' & -> & Hr' & Mr' & Hrr & Hrc).
    { destruct (isBelow pt cur r) eqn:E.
      - exists r. repeat split; try assumption.
        + destruct Mr; [left | right; right]; assumption.
        + apply before_refl.
        + apply isBelow_keep. exact E.
      - exists cur. repeat split; try assumption.
        + right. left. reflexivity.
        + apply isBelow_take. exact E.
        + apply before_refl. }
    unfold sweepInv. repeat split; try assumption.
    + destruct Ml; [left | right; right]; assumption.
    + ord.
    + intros v [<- | Hv]; [ords |].
      pose proof (Hseen v Hv). destruct (RA v Hv); ords.
    + intros _. ord.
    + destruct RD as [RD | [D1 D2]]; ords.
    + intros v [<- | Hv]; [ords |].
      pose proof (Hseen v Hv). destruct (LA v Hv) as [? | [? | ?]]; ords.
    + intros Hc. exfalso. lra.
  - (* falling into [cur], falling out of it *)
    pose proof (@edge_down _ _ Hx) as Hnc. pose proof (LB He) as LBc.
    unfold sweepInv. repeat split; try assumption.
    + destruct Mr; [left | right; right]; assumption.
    + destruct Ml; [left | right; right]; assumption.
    + intros v [<- | Hv]; [ords |].
      pose proof (Hseen v Hv). destruct (RA v Hv); ords.
    + intros Hc. exfalso. lra.
    + destruct RD as [RD | D]; [left; exact RD | right].
      apply descending_step; assumption.
    + intros v [<- | Hv].
      * destruct LBc as [? | [D1 D2]]; ords.
      * pose proof (Hseen v Hv).
        destruct (LA v Hv) as [? | [? | ?]]; [ords | | ords].
        destruct LBc as [? | [D1 D2]]; ords.
    + intros _. destruct LBc as [? | D]; [ords | right].
      apply descending_step; assumption.
Qed.

Lemma last_indep {A : Type} (l : list A) (a x y : A) :
  last (a :: l) x = last (a :: l) y.
Proof.
  revert a. induction l as [| b l IH]; intros a; [reflexivity |].
  change (last (b :: l) x = last (b :: l) y). apply IH.
Qed.

(** The invariant along a path of vertices, up to its last edge. *)
Lemma sweepInv_path (tail : list Position) :
  forall (cur : Position) (seen : list Position) (st : Q * Position * Position)
         (w : Position),
  (forall v, In v seen -> 0 < side pt d v) ->
  (forall v, In v (cur :: tail) -> 0 < side pt d v) ->
  sweepInv pt d v0 rin lin seen cur st ->
  exists st',
    fold_left (sweepEdge pt) (combine (cur :: tail) (tail ++ [w])) st =
      sweepEdge pt st' (last (cur :: tail) cur, w) /\
    sweepInv pt d v0 rin lin (rev (removelast (cur :: tail)) ++ seen)
      (last (cur :: tail) cur) st'.
Proof.
  induction tail as [| next tail IH]; intros cur seen st w Hseen Hpath HI.
  - exists st. split; [reflexivity | exact HI].
  - assert (Hstep : sweepInv pt d v0 rin lin (cur :: seen) next
                      (sweepEdge pt st (cur, next))).
    { apply sweepInv_step; try assumption; apply Hpath; simpl; auto. }
    destruct (IH next (cur :: seen) (sweepEdge pt st (cur, next)) w)
      as (st' & Hf & HI'); [| | exact Hstep |].
    + intros v [<- | Hv]; [apply Hpath; simpl; auto | apply Hseen; exact Hv].
    + intros v Hv. apply Hpath. right. exact Hv.
    + exists st'.
      rewrite (@last_indep _ tail next next cur) in Hf, HI'.
      split; [exact Hf |].
      change (removelast (cur :: next :: tail))
        with (cur :: removelast (next :: tail)).
      simpl rev. rewrite <- app_assoc. exact HI'.
Qed.

(** The sweep of a closed ring from a seed orientation that is not positive:
    the right candidate ends before every vertex of the ring and the left
    candidate after every one. *)
Lemma closed_ring_extremes (v1 : Position) (rest : list Position) (e : Q) :
  (forall v, In v (v0 :: v1 :: rest) -> 0 < side pt d v) ->
  e <= 0 ->
  ~ isLeft pt v0 v1 == 0 ->
  forall e' r' l',
  fold_left (sweepEdge pt) (ringEdges (v0 :: v1 :: rest ++ [v0])) (e, rin, lin)
    = (e', r', l') ->
  0 < side pt d r' /\ 0 < side pt d l' /\
  (r' = rin \/ In r' (v0 :: v1 :: rest)) /\
  (l' = lin \/ In l' (v0 :: v1 :: rest)) /\
  before pt r' rin /\ before pt lin l' /\
  (forall v, In v (v0 :: v1 :: rest) -> before pt r' v) /\
  (forall v, In v (v0 :: v1 :: rest) -> before pt v l').
Proof.
  intros Hbody He Hne e' r' l'.
  assert (HI0 : sweepInv pt d v0 rin lin [] v0 (e, rin, lin)).
  { unfold sweepInv. repeat split; try assumption; try apply before_refl.
    - left. reflexivity.
    - left. reflexivity.
    - intros v [].
    - intros Hc. exfalso. lra.
    - right. split; [apply before_refl | intros v []].
    - intros v [].
    - intros _. right. split; [apply before_refl | intros v []]. }
  destruct (@sweepInv_path ((v1 :: rest) ++ [v0]) v0 [] (e, rin, lin) v0)
    as (st' & Hf & HI); [intros v [] | | exact HI0 |].
  { intros v [<- | Hv]; [exact Hv0 |]. apply in_app_or in Hv.
    destruct Hv as [Hv | [<- | []]]; [| exact Hv0].
    apply Hbody. right. exact Hv. }
  rewrite app_comm_cons, last_last in Hf.
  rewrite app_comm_cons, last_last, removelast_last, app_nil_r in HI.
  assert (Hf' : fold_left (sweepEdge pt) (ringEdges (v0 :: v1 :: rest ++ [v0]))
                  (e, rin, lin) = sweepEdge pt st' (v0, v0)) by exact Hf.
  rewrite Hf'. clear Hf Hf'.
  destruct st' as [[e1 r1] l1].
  destruct HI as (Hr & Hl & Mr & Ml & Sr & Sl & RA & RB & RD & LA & LB).
  assert (Hseen : forall v, In v (v0 :: v1 :: rest) -> In v (rev (v0 :: v1 :: rest)))
    by (intros v Hv; apply in_rev; rewrite rev_involutive; exact Hv).
  assert (Hseen' : forall v, In v (rev (v0 :: v1 :: rest)) -> In v (v0 :: v1 :: rest))
    by (intros v Hv; apply in_rev; exact Hv).
  assert (Hnodesc : ~ descending pt v0 v0 (rev (v0 :: v1 :: rest))).
  { intros [_ D]. destruct (D v1) as [D1 D2]; [apply Hseen; simpl; auto |].
    apply Hne. apply before_tie; assumption. }
  assert (Hr0 : before pt r1 v0)
    by (destruct RD as [? | D]; [assumption | contradiction]).
  assert (Hz : isLeft v0 v0 pt == 0) by (unfold isLeft; ring).
  unfold sweepEdge.
  assert (Hrall : forall v, In v (v0 :: v1 :: rest) -> before pt r1 v).
  { intros v Hv. pose proof (Hbody v Hv).
    destruct (RA v (Hseen v Hv)); ords. }
  assert (Mr' : r1 = rin \/ In r1 (v0 :: v1 :: rest))
    by (destruct Mr; [left | right; apply Hseen']; assumption).
  assert (Ml' : l1 = lin \/ In l1 (v0 :: v1 :: rest))
    by (destruct Ml; [left | right; apply Hseen']; assumption).
  destruct (Qlt_le_dec 0 e1) as [He1 | He1];
    destruct (Qlt_le_dec 0 (isLeft v0 v0 pt)) as [Hx | Hx];
    try (exfalso; lra); intros Heq; inversion Heq; subst e' r' l'; clear Heq.
  - (* the closing edge offers the first vertex as a left candidate *)
    destruct (isAbove pt v0 l1) eqn:E.
    + pose proof (@isAbove_keep _ _ E) as H0l.
      repeat split; try assumption.
      intros v Hv. pose proof (Hbody v Hv).
      destruct (LA v (Hseen v Hv)) as [? | [? | ?]]; ords.
    + pose proof (@isAbove_take _ _ E) as Hl0.
      repeat split; try assumption.
      * right. left. reflexivity.
      * ord.
      * intros v Hv. pose proof (Hbody v Hv).
        destruct (LA v (Hseen v Hv)) as [? | [? | ?]]; ords.
  - destruct (LB He1) as [H0l | D]; [| contradiction].
    repeat split; try assumption.
    intros v Hv. pose proof (Hbody v Hv).
    destruct (LA v (Hseen v Hv)) as [? | [? | ?]]; ords.
Qed.

End Order.

(** ** First and last vertex around the reference point *)

Lemma processPolygon_extremes (pt d v0 v1 : Position) (rest : list Position)
    (e : Q) (rin lin : Position) :
  (forall v, In v (v0 :: v1 :: rest) -> 0 < side pt d v) ->
  0 < side pt d rin -> 0 < side pt d lin ->
  e <= 0 ->
  ~ isLeft pt v0 v1 == 0 ->
  exists r l,
    processPolygon (v0 :: v1 :: rest ++ [v0]) pt e (Some rin) (Some lin) =
      Ok (Some r, Some l) /\
    extremes pt d (v0 :: v1 :: rest) rin lin r l.
Proof.
  intros Hbody Hrin Hlin He Hne. rewrite processPolygon_defined.
  destruct (fold_left (sweepEdge pt) (ringEdges (v0 :: v1 :: rest ++ [v0]))
              (e, rin, lin)) as [[e' r] l] eqn:E.
  exists r, l. split; [reflexivity |].
  apply (@closed_ring_extremes pt d v0 rin lin) with (e := e) (e' := e');
    try assumption.
  apply Hbody. left. reflexivity.
Qed.

Lemma ForallOrdPairs_app_inv {A : Type} (R : A -> A -> Prop) (l1 l2 : list A) :
  ForallOrdPairs R (l1 ++ l2) -> ForallOrdPairs R l1 /\ ForallOrdPairs R l2.
Proof.
  induction l1 as [| a l1 IH]; simpl; intros H.
  - split; [constructor | exact H].
  - inversion H as [| ? ? Ha Hl]; subst.
    destruct (IH Hl) as [H1 H2]. apply Forall_app in Ha.
    split; [constructor; tauto | exact H2].
Qed.

Lemma sweepAll_extremes (pt d : Position) (e : Q)
    (polys : list (list Ring)) (bodies : list (list Position)) :
  Forall2 closedOuter polys bodies ->
  e <= 0 ->
  (forall v, In v (concat bodies) -> 0 < side pt d v) ->
  noTies pt (concat bodies) ->
  forall rin lin : Position,
  0 < side pt d rin -> 0 < side pt d lin ->
  exists r l,
    sweepAll polys pt e (Some rin) (Some lin) = Ok (Some r, Some l) /\
    extremes pt d (concat bodies) rin lin r l.
Proof.
  intros HF He. induction HF as [| p b ps bs Hp HF IH];
    intros Hside Hties rin lin Hrin Hlin.
  - exists rin, lin. split; [reflexivity |].
    unfold extremes. repeat split; try assumption; try apply before_refl;
      try (left; reflexivity); intros v [].
  - change (concat (b :: bs)) with (b ++ concat bs) in *.
    unfold noTies in Hties.
    apply ForallOrdPairs_app_inv in Hties. destruct Hties as [Tb Tbs].
    destruct Hp as [v0 v1 rest holes].
    assert (Hne : ~ isLeft pt v0 v1 == 0).
    { inversion Tb as [| ? ? Ha _]; subst. inversion Ha; subst. assumption. }
    destruct (@processPolygon_extremes pt d v0 v1 rest e rin lin)
      as (r1 & l1 & E1 & X1); try assumption.
    { intros v Hv. apply Hside. apply in_or_app. left. exact Hv. }
    destruct X1 as (Hr1 & Hl1 & Mr1 & Ml1 & Sr1 & Sl1 & A1 & B1).
    destruct (IH (fun v Hv => Hside v (in_or_app _ _ v (or_intror Hv))) Tbs
                 r1 l1 Hr1 Hl1)
      as (r & l & E & (Hr & Hl & Mr & Ml & Sr & Sl & A & B)).
    exists r, l. split.
    + cbn [sweepAll nth_error defined bind]. rewrite E1.
      cbn [bind fst snd]. exact E.
    + unfold extremes. repeat split; try assumption.
      * destruct Mr as [-> | Mr];
          [destruct Mr1; [left | right; apply in_or_app; left]; assumption |].
        right. apply in_or_app. right. exact Mr.
      * destruct Ml as [-> | Ml];
          [destruct Ml1; [left | right; apply in_or_app; left]; assumption |].
        right. apply in_or_app. right. exact Ml.
      * apply (@before_trans pt d r r1 rin); assumption.
      * apply (@before_trans pt d lin l1 l); assumption.
      * intros v Hv. apply in_app_or in Hv. destruct Hv as [Hv | Hv].
        -- apply (@before_trans pt d r r1 v); try assumption; [apply A1; exact Hv |].
           apply Hside. apply in_or_app. left. exact Hv.
        -- apply A. exact Hv.
      * intros v Hv. apply in_app_or in Hv. destruct Hv as [Hv | Hv].
        -- apply (@before_trans pt d v l1 l); try assumption; [apply B1; exact Hv |].
           apply Hside. apply in_or_app. left. exact Hv.
        -- apply B. exact Hv.
Qed.

Lemma before_flip (pt a b : Position) : before pt a b -> isLeft pt b a <= 0.
Proof. unfold before. rewrite (isLeft_anti pt b a). intros. lra. Qed.

(** ** Reflection across the x-axis *)


(** Nor does it hold inside the bounding box, ties or not: the Polygon case
    seeds [ltan] at the nearest vertex only when that vertex is below the
    reference point, which the reflection turns around. *)
Lemma mirror_inside_bbox :
  noTies (2, 2) (removelast dart) /\
  insideBbox (2, 2) (calcBbox (Polygon [dart])) = true /\
  tangents (2, 2) (Polygon [dart]) = Ok (Some (2, 0), Some (0, 4)) /\
  tangents (mirror (2, 2)) (mirrorGeometry (Polygon [dart])) =
    Ok (Some (0, - (4)), Some (0, - (4))).
Proof.
  split; [unfold noTies; repeat constructor; vm_compute; discriminate |].
  repeat split; vm_compute; reflexivity.
Qed.

(** ** The walk that locates the nearest vertex *)

Lemma countVertices_found (idx m i2 cv vc : nat) :
  (vc <= idx)%nat -> (idx < vc + m)%nat ->
  countVertices idx m i2 cv vc = ((i2 + (idx - vc))%nat, idx, true).
Proof.
  revert i2 cv vc. induction m as [| m IH]; intros i2 cv vc H1 H2; [lia |].
  simpl. destruct (Nat.eqb_spec vc idx) as [-> | Hne].
  - rewrite Nat.sub_diag, Nat.add_0_r. reflexivity.
  - rewrite IH by lia.
    replace (S i2 + (idx - S vc))%nat with (i2 + (idx - vc))%nat by lia.
    reflexivity.
Qed.

Lemma countVertices_passed (idx m i2 cv vc : nat) :
  (vc + m <= idx)%nat ->
  countVertices idx m i2 cv vc =
  (match m with O => cv | S m' => (i2 + m')%nat end, (vc + m)%nat, false).
Proof.
  revert i2 cv vc. induction m as [| m IH]; intros i2 cv vc H.
  - simpl. rewrite Nat.add_0_r. reflexivity.
  - simpl. destruct (Nat.eqb_spec vc idx) as [-> | Hne]; [lia |].
    rewrite IH by lia. destruct m; f_equal; try f_equal; lia.
Qed.

Lemma locateVertex_found (idx : nat) (rings : list Ring) :
  forall i cf cv vc : nat,
  (vc <= idx)%nat -> (idx - vc < length (concat rings))%nat ->
  exists j k ring,
    locateVertex idx rings i cf cv vc = ((i + j)%nat, k) /\
    nth_error rings j = Some ring /\
    nth_error ring k = nth_error (concat rings) (idx - vc).
Proof.
  induction rings as [| ring rest IH]; intros i cf cv vc H1 H2;
    [simpl in H2; lia |].
  simpl concat in *. rewrite length_app in H2. cbn [locateVertex].
  destruct (Nat.lt_ge_cases idx (vc + length ring)) as [Hin | Hout].
  - rewrite countVertices_found by assumption.
    exists 0%nat, (idx - vc)%nat, ring. rewrite Nat.add_0_r. simpl.
    split; [reflexivity |]. split; [reflexivity |].
    rewrite nth_error_app1 by lia. reflexivity.
  - rewrite countVertices_passed by assumption.
    destruct (IH (S i) i (match length ring with O => cv | S m' => 0 + m' end)%nat
                 (vc + length ring)%nat) as (j & k & r & E & Hj & Hk); [lia | lia |].
    exists (S j), k, r. rewrite E. split; [f_equal; lia |]. split; [exact Hj |].
    rewrite Hk, nth_error_app2 by lia. f_equal. lia.
Qed.

Lemma locateVertex_passed (idx : nat) (rings : list Ring) :
  forall i cf cv vc : nat,
  rings <> [] -> Forall (fun ring => ring <> []) rings ->
  (vc + length (concat rings) <= idx)%nat ->
  locateVertex idx rings i cf cv vc =
  ((i + length rings - 1)%nat, (length (last rings []) - 1)%nat).
Proof.
  induction rings as [| ring rest IH]; intros i cf cv vc Hne Hall H;
    [congruence |].
  inversion Hall as [| ? ? Hring Hrest]; subst.
  simpl concat in H. rewrite length_app in H. cbn [locateVertex].
  rewrite countVertices_passed by lia.
  destruct ring as [| v ring]; [congruence |]. cbn [length].
  destruct rest as [| ring' rest].
  - simpl. f_equal; lia.
  - rewrite IH; [| discriminate | exact Hrest | simpl in *; lia].
    change (last ((v :: ring) :: ring' :: rest) []) with (last (ring' :: rest) []).
    f_equal. simpl length. lia.
Qed.

Lemma locateVertex_position (idx : nat) (rings : list Ring) :
  forall i cf cv vc : nat,
  (vc <= idx)%nat -> (idx - vc < length (concat rings))%nat ->
  exists j k ring,
    locateVertex idx rings i cf cv vc = ((i + j)%nat, k) /\
    nth_error rings j = Some ring /\
    (k < length ring)%nat /\
    (idx - vc = length (concat (firstn j rings)) + k)%nat.
Proof.
  induction rings as [| ring rest IH]; intros i cf cv vc H1 H2;
    [simpl in H2; lia |].
  simpl concat in *. rewrite length_app in H2. cbn [locateVertex].
  destruct (Nat.lt_ge_cases idx (vc + length ring)) as [Hin | Hout].
  - rewrite countVertices_found by assumption.
    exists 0%nat, (idx - vc)%nat, ring. rewrite Nat.add_0_r. simpl.
    split; [reflexivity |]. split; [reflexivity |]. split; lia.
  - rewrite countVertices_passed by assumption.
    destruct (IH (S i) i (match length ring with O => cv | S m' => 0 + m' end)%nat
                 (vc + length ring)%nat) as (j & k & r & E & Hj & Hk & Hpos);
      [lia | lia |].
    exists (S j), k, r. rewrite E. split; [f_equal; lia |]. split; [exact Hj |].
    split; [exact Hk |]. cbn [firstn concat]. rewrite length_app. lia.
Qed.

(** The walk of the MultiPolygon case over the rings of the first polygon:
    a nearest index below the number of positions stored in those rings is
    resolved to the one ring and the one place in it that the index
    reaches when the rings are laid end to end: the positions of the rings
    before that ring and the place in it add up to the index, and the entry
    there is the entry of that index. *)
Theorem locateVertex_first_polygon (idx : nat) (rings : list Ring) :
  (idx < length (concat rings))%nat ->
  exists (j k : nat) (ring : Ring),
    locateVertex idx rings 0 0 0 0 = (j, k) /\
    nth_error rings j = Some ring /\
    (k < length ring)%nat /\
    idx = (length (concat (firstn j rings)) + k)%nat /\
    nth_error ring k = nth_error (concat rings) idx.
Proof.
  intros H.
  destruct (@locateVertex_position idx rings 0 0 0 0)
    as (j & k & ring & E & Hj & Hk & Hpos); [lia | lia |].
  rewrite Nat.sub_0_r in Hpos. cbn [Nat.add] in E.
  exists j, k, ring.
  split; [exact E |]. split; [exact Hj |]. split; [exact Hk |].
  split; [exact Hpos |].
  assert (Hcat : concat rings = concat (firstn j rings) ++ concat (skipn j rings))
    by (rewrite <- concat_app, firstn_skipn; reflexivity).
  rewrite Hcat, nth_error_app2 by lia.
  replace (idx - length (concat (firstn j rings)))%nat with k by lia.
  assert (Hs : exists tail, skipn j rings = ring :: tail).
  { clear - Hj. revert j Hj. induction rings as [| r rs IH]; intros [| j] Hj;
      try discriminate Hj.
    - injection Hj as ->. exists rs. reflexivity.
    - apply (IH j Hj). }
  destruct Hs as (tail & ->). cbn [concat].
  rewrite nth_error_app1 by exact Hk. reflexivity.
Qed.

Lemma locateVertex_first_polygon_witness :
  exists (j k : nat) (ring : Ring),
    locateVertex 7 [square; window] 0 0 0 0 = (j, k) /\
    nth_error [square; window] j = Some ring /\
    (k < length ring)%nat /\
    7%nat = (length (concat (firstn j [square; window])) + k)%nat /\
    nth_error ring k = nth_error (concat [square; window]) 7.
Proof.
  apply (@locateVertex_first_polygon 7 [square; window]). simpl. lia.
Defined.

(** A nearest index at or past the number of positions of the first polygon
    (the nearest vertex belongs to a later polygon) leaves the walk at the
    last position of the last ring of the first polygon. *)
Theorem locateVertex_fallback (idx : nat) (rings : list Ring) :
  rings <> [] ->
  Forall (fun ring => ring <> []) rings ->
  (length (concat rings) <= idx)%nat ->
  locateVertex idx rings 0 0 0 0 =
  ((length rings - 1)%nat, (length (last rings []) - 1)%nat).
Proof.
  intros Hne Hall H.
  exact (@locateVertex_passed idx rings 0 0 0 0 Hne Hall H).
Qed.

Lemma locateVertex_fallback_witness :
  locateVertex 12 [square; window] 0 0 0 0 =
  ((length [square; window] - 1)%nat,
   (length (last [square; window] []) - 1)%nat).
Proof.
  apply (@locateVertex_fallback 12 [square; window]).
  - discriminate.
  - repeat constructor; discriminate.
  - simpl. lia.
Defined.

Lemma nth_error_last_entry {A : Type} (l : list A) (x : A) :
  l <> [] -> nth_error l (length l - 1) = Some (last l x).
Proof.
  intros Hne. destruct (exists_last Hne) as (body & a & ->).
  rewrite last_last, length_app, nth_error_app2 by (simpl; lia).
  simpl length. replace (length body + 1 - 1 - length body)%nat with 0%nat by lia.
  reflexivity.
Qed.

Lemma last_in {A : Type} (l : list A) (x : A) : l <> [] -> In (last l x) l.
Proof.
  intros Hne. destruct (exists_last Hne) as (body & a & ->).
  rewrite last_last. apply in_or_app. right. left. reflexivity.
Qed.

Lemma locateVertex_in_bounds (idx : nat) (rings : list Ring) :
  rings <> [] ->
  Forall (fun ring => ring <> []) rings ->
  exists ring s,
    nth_error rings (fst (locateVertex idx rings 0 0 0 0)) = Some ring /\
    nth_error ring (snd (locateVertex idx rings 0 0 0 0)) = Some s.
Proof.
  intros Hne Hall.
  destruct (Nat.lt_ge_cases idx (length (concat rings))) as [Hin | Hout].
  - destruct (@locateVertex_found idx rings 0 0 0 0) as (j & k & ring & E & Hj & Hk);
      [lia | lia |].
    rewrite E, Nat.sub_0_r in *. cbn [fst snd].
    destruct (nth_error (concat rings) idx) as [s |] eqn:Es.
    + exists ring, s. split; assumption.
    + apply nth_error_None in Es. lia.
  - rewrite (@locateVertex_passed idx rings 0 0 0 0 Hne Hall Hout). cbn [fst snd].
    assert (Hlast : last rings [] <> []).
    { rewrite Forall_forall in Hall. apply Hall. apply last_in. exact Hne. }
    exists (last rings []), (last (last rings []) (0, 0)).
    split; apply nth_error_last_entry; assumption.
Qed.

(** ** Results that are defined *)

Lemma processPolygon_some (ring : Ring) (pt : Position) (e : Q)
    (r l : Position) :
  exists r' l', processPolygon ring pt e (Some r) (Some l) = Ok (Some r', Some l').
Proof.
  rewrite processPolygon_defined.
  destruct (fold_left (sweepEdge pt) (ringEdges ring) (e, r, l)) as [[e' r'] l'].
  exists r', l'. reflexivity.
Qed.

Lemma sweepAll_some (pt : Position) (e : Q) (polys : list (list Ring)) :
  Forall (fun polygon => polygon <> []) polys ->
  forall r l : Position,
  exists r' l', sweepAll polys pt e (Some r) (Some l) = Ok (Some r', Some l').
Proof.
  induction 1 as [| p polys Hp _ IH]; intros r l; cbn [sweepAll].
  - exists r, l. reflexivity.
  - destruct p as [| outer holes]; [congruence |]. cbn [nth_error defined bind].
    destruct (@processPolygon_some outer pt e r l) as (r1 & l1 & E1).
    rewrite E1. cbn [bind fst snd]. apply IH.
Qed.

(** The MultiPolygon case neither throws nor returns [undefined] once the
    lookup has returned, whatever index it returned: it is enough that the
    first polygon has a ring, that none of its rings is empty and that every
    other polygon has a ring. *)
Theorem multipolygon_never_undefined
    (calcBbox' : Geometry -> BBox)
    (explode' : Geometry -> list Position)
    (nearestPoint' : Position -> list Position -> result Nearest)
    (pt : Position) (first : list Ring) (others : list (list Ring))
    (nearest : option Nearest) :
  first <> [] ->
  Forall (fun ring => ring <> []) first ->
  Forall (fun polygon => polygon <> []) others ->
  lookupNearest calcBbox' explode' nearestPoint' pt (MultiPolygon (first :: others))
    = Ok nearest ->
  exists rtan ltan,
    polygonTangents calcBbox' explode' nearestPoint' pt
      (MultiPolygon (first :: others)) = Ok (Some rtan, Some ltan).
Proof.
  intros Hne Hall Hothers Hlook. unfold polygonTangents. rewrite Hlook.
  cbn [bind nth_error defined].
  destruct (@locateVertex_in_bounds (indexOf nearest) first Hne Hall)
    as (ringc & s & Hc & Hs).
  destruct (locateVertex (indexOf nearest) first 0 0 0 0) as [cf cv].
  cbn [fst snd] in Hc, Hs. unfold Ring in *. rewrite Hc. cbn [defined bind].
  destruct first as [| ring00 holes]; [congruence |].
  inversion Hall as [| ? ? H00 _]; subst.
  cbn [nth_error defined bind].
  destruct ring00 as [| v0 ring00]; [congruence |].
  cbn [nth_error defined bind].
  rewrite (@at_index_last _ (v0 :: ring00) v0) by discriminate.
  cbn [defined bind]. rewrite Hs.
  apply sweepAll_some. constructor; [discriminate | exact Hothers].
Qed.

Lemma multipolygon_never_undefined_witness :
  exists rtan ltan,
    polygonTangents calcBbox explode nearestPoint (8, 1)
      (MultiPolygon ([square] :: [[squareEast]])) = Ok (Some rtan, Some ltan).
Proof.
  apply (@multipolygon_never_undefined calcBbox explode nearestPoint (8, 1)
           [square] [[squareEast]] (Some (mkNearest 5 (10, 0)))).
  - discriminate.
  - repeat constructor; discriminate.
  - repeat constructor; discriminate.
  - vm_compute. reflexivity.
Defined.

(** The Polygon case returns two defined points when the outer ring is not
    empty and the nearest index falls inside it. *)
Theorem polygon_defined_in_range
    (calcBbox' : Geometry -> BBox)
    (explode' : Geometry -> list Position)
    (nearestPoint' : Position -> list Position -> result Nearest)
    (pt : Position) (outer : Ring) (holes : list Ring)
    (nearest : option Nearest) :
  outer <> [] ->
  lookupNearest calcBbox' explode' nearestPoint' pt (Polygon (outer :: holes))
    = Ok nearest ->
  (indexOf nearest < length outer)%nat ->
  exists rtan ltan,
    polygonTangents calcBbox' explode' nearestPoint' pt
      (Polygon (outer :: holes)) = Ok (Some rtan, Some ltan).
Proof.
  intros Hne Hlook Hidx. unfold polygonTangents. rewrite Hlook.
  cbn [bind nth_error defined].
  destruct (nth_error outer (indexOf nearest)) as [s |] eqn:Es.
  2: { apply nth_error_None in Es. lia. }
  destruct outer as [| v0 outer]; [congruence |].
  cbn [nth_error defined bind].
  rewrite (@at_index_last _ (v0 :: outer) v0) by discriminate.
  cbn [defined bind].
  destruct nearest as [n |]; [destruct (Qltb (snd (coordinates n)) (snd pt)) |];
    apply processPolygon_some.
Qed.

Lemma polygon_defined_in_range_witness :
  exists rtan ltan,
    polygonTangents calcBbox explode nearestPoint (1, 2)
      (Polygon (triangle :: [])) = Ok (Some rtan, Some ltan).
Proof.
  apply (@polygon_defined_in_range calcBbox explode nearestPoint (1, 2)
           triangle [] (Some (mkNearest 1 (3, 0)))).
  - discriminate.
  - vm_compute. reflexivity.
  - simpl. lia.
Defined.

Lemma sweepBody_rtan_undefined (ring : Ring) (pt : Position) (i : nat)
    (st st' : Sweep) :
  st_rtan st = None -> sweepBody ring pt i st = Ok st' -> st_rtan st' = None.
Proof.
  intros Hr. unfold sweepBody.
  destruct (defined (nth_error ring i)) as [cur |]; [| discriminate].
  cbn [bind].
  destruct (defined (if Nat.eqb i (length ring - 1) then nth_error ring 0
                     else nth_error ring (i + 1))) as [next |];
    [| discriminate].
  cbn [bind]. rewrite Hr.
  destruct (Qle_bool (st_eprev st) 0 && Qltb 0 (isLeft cur next pt));
    [discriminate |].
  destruct (Qltb 0 (st_eprev st) && Qle_bool (isLeft cur next pt) 0).
  - destruct (defined (st_ltan st)) as [l |]; [| discriminate]. cbn [bind].
    intros E. inversion E. reflexivity.
  - intros E. inversion E. reflexivity.
Qed.

Lemma sweepLoop_rtan_undefined (ring : Ring) (pt : Position) (n : nat) :
  forall (i : nat) (st st' : Sweep),
  st_rtan st = None -> sweepLoop ring pt n i st = Ok st' -> st_rtan st' = None.
Proof.
  induction n as [| n IH]; intros i st st' Hr; simpl.
  - intros E. inversion E; subst. exact Hr.
  - destruct (sweepBody ring pt i st) as [st1 |] eqn:E1; [| discriminate].
    cbn [bind]. apply IH. apply (@sweepBody_rtan_undefined ring pt i st st1 Hr E1).
Qed.

Lemma polygon_rtan_undefined
    (calcBbox' : Geometry -> BBox)
    (explode' : Geometry -> list Position)
    (nearestPoint' : Position -> list Position -> result Nearest)
    (pt : Position) (outer : Ring) (holes : list Ring) (n : Nearest)
    (rtan ltan : option Position) :
  lookupNearest calcBbox' explode' nearestPoint' pt (Polygon (outer :: holes))
    = Ok (Some n) ->
  (length outer <= featureIndex n)%nat ->
  polygonTangents calcBbox' explode' nearestPoint' pt (Polygon (outer :: holes))
    = Ok (rtan, ltan) ->
  rtan = None.
Proof.
  intros Hlook Hidx. unfold polygonTangents. rewrite Hlook.
  assert (Es : nth_error outer (featureIndex n) = None)
    by (apply nth_error_None; exact Hidx).
  cbn [bind defined indexOf]. change (nth_error (outer :: holes) 0) with (Some outer).
  cbn [bind defined]. rewrite Es.
  destruct (nth_error outer 0) as [first |];
    [| cbn [defined bind]; intros H; discriminate H].
  cbn [defined bind].
  destruct (at_index outer (Z.of_nat (length outer) - 1)) as [last |];
    [| cbn [defined bind]; intros H; discriminate H].
  cbn [defined bind]. unfold processPolygon.
  destruct (sweepLoop outer pt (length outer) 0 _) as [st |] eqn:E;
    [| cbn [bind]; intros H; discriminate H].
  cbn [bind]. intros H. inversion H; subst.
  eapply sweepLoop_rtan_undefined; [| exact E]. reflexivity.
Qed.

(** The Polygon case with a nearest index at or past the end of the outer
    ring (the nearest vertex is a vertex of a hole): [rtan] starts
    [undefined] and no vertex ever replaces it; the call throws, or hands
    [undefined] on as the right tangent. *)
Theorem polygon_index_past_outer_ring
    (calcBbox' : Geometry -> BBox)
    (explode' : Geometry -> list Position)
    (nearestPoint' : Position -> list Position -> result Nearest)
    (pt : Position) (outer : Ring) (holes : list Ring) (n : Nearest) :
  lookupNearest calcBbox' explode' nearestPoint' pt (Polygon (outer :: holes))
    = Ok (Some n) ->
  (length outer <= featureIndex n)%nat ->
  polygonTangents calcBbox' explode' nearestPoint' pt (Polygon (outer :: holes))
    = Thrown \/
  exists ltan,
    polygonTangents calcBbox' explode' nearestPoint' pt (Polygon (outer :: holes))
      = Ok (None, ltan).
Proof.
  intros Hlook Hidx.
  destruct (polygonTangents calcBbox' explode' nearestPoint' pt
              (Polygon (outer :: holes))) as [[rtan ltan] |] eqn:E;
    [| left; reflexivity].
  right. exists ltan.
  rewrite (@polygon_rtan_undefined calcBbox' explode' nearestPoint' pt outer
             holes n rtan ltan Hlook Hidx E).
  reflexivity.
Qed.

Lemma polygon_index_past_outer_ring_witness :
  tangents (5, 5) (Polygon (frameCw :: [windowCcw])) = Thrown \/
  exists ltan, tangents (5, 5) (Polygon (frameCw :: [windowCcw])) = Ok (None, ltan).
Proof.
  apply (@polygon_index_past_outer_ring calcBbox explode nearestPoint (5, 5)
           frameCw [windowCcw] (mkNearest 5 (4, 4))).
  - vm_compute. reflexivity.
  - simpl. lia.
Defined.

(** Without a lookup a MultiPolygon of one polygon gives what the Polygon
    gives, the exception on a missing or empty outer ring included. *)
Theorem polygon_as_multipolygon
    (calcBbox' : Geometry -> BBox)
    (explode' : Geometry -> list Position)
    (nearestPoint' : Position -> list Position -> result Nearest)
    (pt : Position) (rings : list Ring) :
  insideBbox pt (calcBbox' (Polygon rings)) = false ->
  insideBbox pt (calcBbox' (MultiPolygon [rings])) = false ->
  polygonTangents calcBbox' explode' nearestPoint' pt (MultiPolygon [rings]) =
  polygonTangents calcBbox' explode' nearestPoint' pt (Polygon rings).
Proof.
  intros Hp Hm. unfold polygonTangents, lookupNearest. rewrite Hp, Hm.
  cbn [bind nth_error defined indexOf].
  destruct rings as [| outer holes]; [reflexivity |].
  cbn [nth_error defined bind].
  destruct outer as [| v0 outer].
  - destruct (locateVertex _ _ _ _ _ _) as [cf cv].
    destruct (defined (nth_error _ cf)); reflexivity.
  - cbn [locateVertex length countVertices Nat.eqb nth_error defined bind].
    destruct (defined (at_index (v0 :: outer) (Z.of_nat (S (length outer)) - 1)))
      as [last |]; [| reflexivity].
    cbn [bind sweepAll nth_error defined].
    destruct (processPolygon (v0 :: outer) pt (isLeft v0 last pt) (Some v0) (Some v0))
      as [[r l] |]; reflexivity.
Qed.

Lemma polygon_as_multipolygon_witness :
  polygonTangents calcBbox explode nearestPoint (8, 2) (MultiPolygon [[square]]) =
  polygonTangents calcBbox explode nearestPoint (8, 2) (Polygon [square]).
Proof.
  apply (@polygon_as_multipolygon calcBbox explode nearestPoint (8, 2) [square]);
    vm_compute; reflexivity.
Defined.

(** ** A sweep that meets no turn *)

Lemma sweepBody_no_turn (ring : Ring) (pt : Position) (i : nat) (st : Sweep)
    (cur next : Position) :
  nth_error ring i = Some cur ->
  (if Nat.eqb i (length ring - 1) then nth_error ring 0
   else nth_error ring (i + 1)) = Some next ->
  (0 < st_eprev st <-> 0 < isLeft cur next pt) ->
  sweepBody ring pt i st =
  Ok (mkSweep (isLeft cur next pt) (st_rtan st) (st_ltan st)).
Proof.
  intros Hc Hn Hsame. unfold sweepBody. rewrite Hc, Hn. cbn [defined bind].
  destruct (Qlt_le_dec 0 (st_eprev st)) as [He | He].
  - pose proof (proj1 Hsame He) as Hx.
    assert (E1 : Qle_bool (st_eprev st) 0 = false) by (apply Qle_bool_gt; exact He).
    assert (E2 : Qle_bool (isLeft cur next pt) 0 = false)
      by (apply Qle_bool_gt; exact Hx).
    rewrite E1, E2, andb_false_r. reflexivity.
  - assert (Hx : isLeft cur next pt <= 0).
    { destruct (Qlt_le_dec 0 (isLeft cur next pt)) as [H | H]; [| exact H].
      apply Hsame in H. lra. }
    assert (E1 : Qltb 0 (st_eprev st) = false) by (apply Qltb_ge; exact He).
    assert (E2 : Qltb 0 (isLeft cur next pt) = false) by (apply Qltb_ge; exact Hx).
    rewrite E1, E2, andb_false_r. reflexivity.
Qed.

Lemma sweepLoop_no_turn (ring : Ring) (pt : Position) (up : Prop) (n : nat) :
  (forall cur next, In (cur, next) (ringEdges ring) ->
     (0 < isLeft cur next pt <-> up)) ->
  forall (i : nat) (st : Sweep),
  (i + n = length ring)%nat ->
  (0 < st_eprev st <-> up) ->
  exists e, sweepLoop ring pt n i st = Ok (mkSweep e (st_rtan st) (st_ltan st)).
Proof.
  intros Hedges. induction n as [| n IH]; intros i st Hlen He; cbn [sweepLoop].
  - exists (st_eprev st). destruct st. reflexivity.
  - destruct (nth_error ring i) as [cur |] eqn:Hc.
    2: { apply nth_error_None in Hc. lia. }
    destruct (nth_error_ringEdges ring i Hc) as (next & Hn & Hedge).
    pose proof (Hedges cur next (nth_error_In _ _ Hedge)) as Hx.
    rewrite (@sweepBody_no_turn ring pt i st cur next Hc Hn) by tauto.
    cbn [bind].
    destruct (IH (S i) (mkSweep (isLeft cur next pt) (st_rtan st) (st_ltan st)))
      as (e & E); [lia | exact Hx |].
    exists e. exact E.
Qed.

(** A sweep that meets no change of orientation returns its seeds as they
    came, [undefined] included: the reference point left of every edge with
    a positive [eprev], or left of none with an [eprev] that is not
    positive. *)
Theorem processPolygon_no_turn (ring : Ring) (pt : Position) (eprev : Q)
    (rtan ltan : option Position) :
  (0 < eprev /\
   forall cur next, In (cur, next) (ringEdges ring) -> 0 < isLeft cur next pt) \/
  (eprev <= 0 /\
   forall cur next, In (cur, next) (ringEdges ring) -> isLeft cur next pt <= 0) ->
  processPolygon ring pt eprev rtan ltan = Ok (rtan, ltan).
Proof.
  intros H. unfold processPolygon.
  destruct (@sweepLoop_no_turn ring pt (0 < eprev) (length ring)) with
    (i := 0%nat) (st := mkSweep eprev rtan ltan) as (e & E).
  - intros cur next Hin. destruct H as [[He Hall] | [He Hall]].
    + split; intros _; [exact He | apply Hall; exact Hin].
    + pose proof (Hall cur next Hin). split; intros; exfalso; lra.
  - reflexivity.
  - reflexivity.
  - rewrite E. reflexivity.
Qed.

Lemma processPolygon_no_turn_witness :
  processPolygon frameCw (5, 5) 0 None (Some (0, 0)) = Ok (None, Some (0, 0)).
Proof.
  apply (@processPolygon_no_turn frameCw (5, 5) 0 None (Some (0, 0))).
  right. split; [apply Qle_refl |].
  intros cur next Hin. simpl in Hin.
  repeat (destruct Hin as [Hin | Hin];
          [inversion Hin; subst; vm_compute; discriminate |]).
  destruct Hin.
Defined.

(** ** The angle at a point *)

(** [angle] returns a number exactly when [options] is an object, or left
    out, and the three points are given; otherwise it throws for the first
    check that fails: the options, then the start, the middle and the end
    point. *)
Theorem angle_validation
    (bearing rhumbBearing : Position -> Position -> Q)
    (bearingToAzimuth : Q -> Q)
    (startPoint midPoint endPoint : option Position) (options : AngleOptions) :
  let answer :=
    angle bearing rhumbBearing bearingToAzimuth
      startPoint midPoint endPoint options in
  (answer = Throws "options is invalid" <-> options = NotAnObject) /\
  (answer = Throws "startPoint is required" <->
     options <> NotAnObject /\ startPoint = None) /\
  (answer = Throws "midPoint is required" <->
     options <> NotAnObject /\ startPoint <> None /\ midPoint = None) /\
  (answer = Throws "endPoint is required" <->
     options <> NotAnObject /\ startPoint <> None /\ midPoint <> None /\
     endPoint = None) /\
  ((exists value, answer = Returns value) <->
     options <> NotAnObject /\ startPoint <> None /\ midPoint <> None /\
     endPoint <> None).
Proof.
  assert (Hret : forall (c : bool) (x y : Q) (message : string),
            (if c then Returns x else Returns y) <> Throws message)
    by (intros [] x y message; discriminate).
  assert (Hex : forall (c : bool) (x y : Q),
            exists value, (if c then Returns x else Returns y) = Returns value)
    by (intros [] x y; eexists; reflexivity).
  destruct options as [| | explementary mercator];
    destruct startPoint as [pA |], midPoint as [pO |], endPoint as [pB |];
    cbv zeta; cbn [angle];
    (split; [| split; [| split; [| split]]]);
    (split; intros H;
     first [ discriminate H
           | reflexivity
           | exfalso; exact (Hret _ _ _ _ H)
           | apply Hex
           | eexists; reflexivity
           | repeat split; first [reflexivity | discriminate]
           | exfalso; intuition congruence
           | destruct H as [value H]; discriminate H ]).
Qed.

(** * Properties of the run in binary64 *)

(** ** Binary64: comparisons with zero *)

Lemma gt0_spec (x : float) :
  (0 <? x)%float = SFltb (S754_zero false) (Prim2SF x).
Proof. rewrite FloatAxioms.ltb_spec. reflexivity. Qed.

Lemma lt0_spec (x : float) :
  (x <? 0)%float = SFltb (Prim2SF x) (S754_zero false).
Proof. rewrite FloatAxioms.ltb_spec. reflexivity. Qed.

Lemma le0_spec (x : float) :
  (x <=? 0)%float = SFleb (Prim2SF x) (S754_zero false).
Proof. rewrite FloatAxioms.leb_spec. reflexivity. Qed.

Lemma eq0_spec (x : float) :
  (x =? 0)%float = SFeqb (Prim2SF x) (S754_zero false).
Proof. rewrite FloatAxioms.eqb_spec. reflexivity. Qed.

Lemma is_nan_spec (x : float) :
  is_nan x = match Prim2SF x with S754_nan => true | _ => false end.
Proof.
  unfold is_nan. rewrite FloatAxioms.eqb_spec. unfold SFeqb, SFcompare.
  destruct (Prim2SF x) as [[] | [] | | [] m e]; try reflexivity;
    rewrite Z.compare_refl, Pos.compare_cont_refl; reflexivity.
Qed.

Lemma SFsub_same (x : spec_float) : zeroOrNan (SF64sub x x).
Proof.
  destruct x as [[] | [] | | s m e]; try exact I.
  unfold SF64sub, SFsub. rewrite Z.sub_diag. exact I.
Qed.

Lemma SFmul_zeroOrNan_l (x y : spec_float) :
  zeroOrNan x -> zeroOrNan (SF64mul x y).
Proof. destruct x as [? | ? | | ? ? ?], y as [? | ? | | ? ? ?]; simpl; tauto. Qed.

Lemma SFmul_zeroOrNan_r (x y : spec_float) :
  zeroOrNan y -> zeroOrNan (SF64mul x y).
Proof. destruct x as [? | ? | | ? ? ?], y as [? | ? | | ? ? ?]; simpl; tauto. Qed.

Lemma SFsub_zeroOrNan (x y : spec_float) :
  zeroOrNan x -> zeroOrNan y -> zeroOrNan (SF64sub x y).
Proof.
  destruct x as [[] | ? | | ? ? ?], y as [[] | ? | | ? ? ?]; simpl; tauto.
Qed.

Lemma isLeft64_degenerate (c pt : Position64) :
  zeroOrNan (Prim2SF (isLeft64 c c pt)).
Proof.
  unfold isLeft64. rewrite sub_spec, !mul_spec, !sub_spec.
  apply SFsub_zeroOrNan.
  - apply SFmul_zeroOrNan_l. apply SFsub_same.
  - apply SFmul_zeroOrNan_r. apply SFsub_same.
Qed.

Lemma zeroOrNan_not_positive (x : float) :
  zeroOrNan (Prim2SF x) -> (0 <? x)%float = false.
Proof.
  rewrite gt0_spec. destruct (Prim2SF x) as [[] | ? | | ? ? ?]; simpl; tauto.
Qed.

Lemma zeroOrNan_cases (x : float) :
  zeroOrNan (Prim2SF x) ->
  (x =? 0)%float = true /\ (x <=? 0)%float = true /\ is_nan x = false \/
  (x =? 0)%float = false /\ (x <=? 0)%float = false /\ is_nan x = true.
Proof.
  rewrite eq0_spec, le0_spec, is_nan_spec.
  destruct (Prim2SF x) as [[] | ? | | ? ? ?]; simpl; tauto.
Qed.

Lemma is_finite_spec (x : float) :
  is_finite x =
  match Prim2SF x with
  | S754_zero _ | S754_finite _ _ _ => true
  | _ => false
  end.
Proof.
  unfold is_finite, is_infinity.
  rewrite is_nan_spec, FloatAxioms.eqb_spec, abs_spec.
  change (Prim2SF infinity) with (S754_infinity false).
  destruct (Prim2SF x) as [[] | [] | | [] m e]; reflexivity.
Qed.

Lemma SFsub_same_finite (x : spec_float) :
  match x with S754_zero _ | S754_finite _ _ _ => True | _ => False end ->
  SF64sub x x = S754_zero false.
Proof.
  destruct x as [[] | [] | | s m e]; try tauto; try reflexivity.
  intros _. unfold SF64sub, SFsub. rewrite Z.sub_diag. reflexivity.
Qed.

Lemma isLeft64_degenerate_finite (c pt : Position64) :
  is_finite (fst c) = true -> is_finite (snd c) = true ->
  is_finite (fst pt - fst c) = true -> is_finite (snd pt - snd c) = true ->
  (isLeft64 c c pt =? 0)%float = true.
Proof.
  rewrite !is_finite_spec, eq0_spec. intros Hx Hy Hdx Hdy. unfold isLeft64.
  rewrite (sub_spec (_ * _) (_ * _)), !mul_spec.
  rewrite (sub_spec (fst c) (fst c)), (sub_spec (snd c) (snd c)).
  rewrite (@SFsub_same_finite (Prim2SF (fst c))), (@SFsub_same_finite (Prim2SF (snd c))).
  - destruct (Prim2SF (fst pt - fst c)) as [[] | ? | | [] ? ?];
      destruct (Prim2SF (snd pt - snd c)) as [[] | ? | | [] ? ?];
      try discriminate; reflexivity.
  - destruct (Prim2SF (snd c)) as [? | ? | | ? ? ?]; try discriminate; exact I.
  - destruct (Prim2SF (fst c)) as [? | ? | | ? ? ?]; try discriminate; exact I.
Qed.

(** ** The closing edge, in binary64 *)

Lemma bind_assoc64 {A B C : Type} (r : result A) (f : A -> result B)
    (g : B -> result C) :
  (y <- (x <- r ;; f x) ;; g y) = (x <- r ;; y <- f x ;; g y).
Proof. destruct r; reflexivity. Qed.

Lemma sweepLoop64_last (ring : Ring64) (pt : Position64) (n i : nat) (st : Sweep64) :
  sweepLoop64 ring pt (S n) i st =
  (st' <- sweepLoop64 ring pt n i st ;; sweepBody64 ring pt (i + n) st').
Proof.
  revert i st. induction n as [| n IH]; intros i st.
  - simpl. rewrite Nat.add_0_r.
    destruct (sweepBody64 ring pt i st); reflexivity.
  - change (sweepLoop64 ring pt (S (S n)) i st)
      with (st' <- sweepBody64 ring pt i st ;; sweepLoop64 ring pt (S n) (S i) st').
    change (sweepLoop64 ring pt (S n) i st)
      with (st' <- sweepBody64 ring pt i st ;; sweepLoop64 ring pt n (S i) st').
    destruct (sweepBody64 ring pt i st) as [st1 |]; [| reflexivity].
    cbn [bind]. rewrite IH. replace (S i + n)%nat with (i + S n)%nat by lia.
    reflexivity.
Qed.

(** C5, as the code has it: on a ring whose stored last vertex repeats the
    first, the orientation that the closing edge contributes is never
    positive; it is a zero, unless a coordinate is not finite or a
    difference to the reference point overflows, when it is NaN.  The
    closing edge never replaces [rtan]; it replaces [ltan] by the closing
    vertex when the orientation state before it is positive and its own
    orientation is a zero, unless [ltan] is above the line from the
    reference point to that vertex. *)
Theorem closing_edge_binary64 (body : Ring64) (c pt : Position64)
    (eprev : float) (rtan ltan : option Position64) :
  hd_error (body ++ [c]) = Some c ->
  (0 <? isLeft64 c c pt)%float = false /\
  ((isLeft64 c c pt =? 0)%float = true \/ is_nan (isLeft64 c c pt) = true) /\
  (is_finite (fst c) = true -> is_finite (snd c) = true ->
   is_finite (fst pt - fst c) = true -> is_finite (snd pt - snd c) = true ->
   (isLeft64 c c pt =? 0)%float = true) /\
  processPolygon64 (body ++ [c]) pt eprev rtan ltan =
    (st <- sweepLoop64 (body ++ [c]) pt (length body) 0
             (mkSweep64 eprev rtan ltan) ;;
     st' <- sweepBody64 (body ++ [c]) pt (length body) st ;;
     Ok (st_rtan64 st', st_ltan64 st')) /\
  forall st : Sweep64,
    sweepBody64 (body ++ [c]) pt (length body) st =
    if (0 <? st_eprev64 st)%float && (isLeft64 c c pt =? 0)%float then
      l <- defined (st_ltan64 st) ;;
      Ok (mkSweep64 (isLeft64 c c pt) (st_rtan64 st)
            (if isAbove64 pt c l then st_ltan64 st else Some c))
    else Ok (mkSweep64 (isLeft64 c c pt) (st_rtan64 st) (st_ltan64 st)).
Proof.
  intros Hhd.
  pose proof (isLeft64_degenerate c pt) as Hz.
  split; [apply zeroOrNan_not_positive; exact Hz |].
  split; [destruct (zeroOrNan_cases _ Hz) as [(E & _ & _) | (_ & _ & E)];
          [left | right]; exact E |].
  split; [apply isLeft64_degenerate_finite |].
  split.
  - unfold processPolygon64. rewrite length_app, Nat.add_1_r, sweepLoop64_last.
    rewrite bind_assoc64. reflexivity.
  - intros st. unfold sweepBody64.
    rewrite nth_error_app2, Nat.sub_diag by lia.
    rewrite length_app, Nat.add_1_r. simpl length.
    replace (S (length body) - 1)%nat with (length body) by lia.
    rewrite Nat.eqb_refl.
    replace (nth_error (body ++ [c]) 0) with (Some c)
      by (destruct body; [reflexivity | exact (eq_sym Hhd)]).
    cbn [nth_error defined bind].
    rewrite (zeroOrNan_not_positive _ Hz), andb_false_r.
    destruct (zeroOrNan_cases _ Hz) as [(E1 & E2 & _) | (E1 & E2 & _)];
      rewrite E1, E2; [rewrite !andb_true_r | rewrite !andb_false_r; reflexivity].
    destruct (0 <? st_eprev64 st)%float; [| reflexivity].
    destruct (st_ltan64 st) as [l |]; [| reflexivity].
    cbn [defined bind]. destruct (isAbove64 pt c l); reflexivity.
Qed.

Lemma closing_edge_binary64_witness :
  hd_error ([(0, 6); (3, 0); (5, 0)] ++ [(0, 6)])%float = Some (0, 6)%float /\
  sweepBody64 ([(0, 6); (3, 0); (5, 0)] ++ [(0, 6)])%float (1, 2)%float 3
    (mkSweep64 14 (Some (3, 0)%float) (Some (3, 0)%float)) =
  Ok (mkSweep64 (isLeft64 (0, 6) (0, 6) (1, 2))%float (Some (3, 0)%float)
        (Some (0, 6)%float)).
Proof.
  split; [reflexivity |].
  exact (proj2 (proj2 (proj2 (proj2
           (@closing_edge_binary64 [(0, 6); (3, 0); (5, 0)]%float (0, 6)%float
              (1, 2)%float 0%float None None eq_refl))))
           (mkSweep64 14 (Some (3, 0)%float) (Some (3, 0)%float))).
Defined.

(** Where a difference overflows the closing edge contributes NaN, which
    fails both tests of the sweep: the closing vertex is offered to
    neither candidate, whatever the orientation state before it. *)
Lemma closing_edge_overflow :
  is_nan (isLeft64 (0, - 0x1p+1023) (0, - 0x1p+1023) (10, 0x1p+1023))%float = true /\
  sweepBody64 [(0, - 0x1p+1023); (4, 0); (0, - 0x1p+1023)]%float
    (10, 0x1p+1023)%float 2
    (mkSweep64 1 (Some (4, 0)%float) (Some (4, 0)%float)) =
  Ok (mkSweep64 nan (Some (4, 0)%float) (Some (4, 0)%float)).
Proof. split; vm_compute; reflexivity. Qed.

(** ** Binary64: negation is exact *)

Lemma sameNumber_refl (x : spec_float) : sameNumber x x.
Proof. destruct x; simpl; auto. Qed.

Lemma sameNumber_trans (x y z : spec_float) :
  sameNumber x y -> sameNumber y z -> sameNumber x z.
Proof.
  destruct x as [? | ? | | ? ? ?], y as [? | ? | | ? ? ?],
           z as [? | ? | | ? ? ?]; simpl; intros H1 H2;
    try discriminate H1; try discriminate H2; try exact I; congruence.
Qed.

Lemma sameNumber_mul_r (x y y' : spec_float) :
  sameNumber y y' -> sameNumber (SF64mul x y) (SF64mul x y').
Proof.
  destruct y as [? | ? | | ? ? ?], y' as [? | ? | | ? ? ?]; simpl; intros H;
    try discriminate H; try (inversion H; subst; clear H);
    try apply sameNumber_refl.
  destruct x as [? | ? | | ? ? ?]; simpl; auto.
Qed.

Lemma sameNumber_sub (x x' y y' : spec_float) :
  sameNumber x x' -> sameNumber y y' ->
  sameNumber (SF64sub x y) (SF64sub x' y').
Proof.
  intros Hx Hy.
  apply (@sameNumber_trans _ (SF64sub x' y)).
  - destruct x as [? | ? | | ? ? ?], x' as [? | ? | | ? ? ?]; simpl in Hx;
      try discriminate Hx; try (inversion Hx; subst; clear Hx);
      try apply sameNumber_refl.
    destruct y as [? | ? | | ? ? ?]; simpl;
      repeat match goal with b : bool |- _ => destruct b end; simpl; auto.
  - destruct y as [? | ? | | ? ? ?], y' as [? | ? | | ? ? ?]; simpl in Hy;
      try discriminate Hy; try (inversion Hy; subst; clear Hy);
      try apply sameNumber_refl.
    destruct x' as [? | ? | | ? ? ?]; simpl;
      repeat match goal with b : bool |- _ => destruct b end; simpl; auto.
Qed.

Lemma binary_round_aux_opp (s : bool) (m e : Z) (l : location) :
  binary_round_aux prec emax (negb s) m e l =
  SFopp (binary_round_aux prec emax s m e l).
Proof.
  unfold binary_round_aux.
  destruct (shr_fexp prec emax m e l) as [mrs' e'].
  destruct (shr_fexp prec emax _ e' loc_Exact) as [mrs'' e''].
  destruct (shr_m mrs''); [reflexivity | | reflexivity].
  destruct (Z.leb e'' (emax - prec)); reflexivity.
Qed.

Lemma binary_round_opp (s : bool) (m : positive) (e : Z) :
  binary_round prec emax (negb s) m e = SFopp (binary_round prec emax s m e).
Proof.
  unfold binary_round.
  destruct (shl_align m e _) as [mz ez]. apply binary_round_aux_opp.
Qed.

Lemma binary_normalize_opp (z e : Z) :
  sameNumber (binary_normalize prec emax (- z) e false)
             (SFopp (binary_normalize prec emax z e false)).
Proof.
  destruct z as [| p | p]; simpl.
  - exact I.
  - rewrite <- (binary_round_opp false). apply sameNumber_refl.
  - rewrite <- (binary_round_opp true). apply sameNumber_refl.
Qed.

Lemma xorb_negb_r (a b : bool) : xorb a (negb b) = negb (xorb a b).
Proof. destruct a, b; reflexivity. Qed.

Lemma SFmul_opp_r (x y : spec_float) :
  SF64mul x (SFopp y) = SFopp (SF64mul x y).
Proof.
  destruct x as [? | ? | | sx mx ex], y as [? | ? | | sy my ey]; simpl;
    rewrite ?xorb_negb_r; try reflexivity.
  apply binary_round_aux_opp.
Qed.

Lemma cond_Zopp_negb (s : bool) (z : Z) : cond_Zopp (negb s) z = (- cond_Zopp s z)%Z.
Proof. destruct s; simpl; lia. Qed.

Lemma SFsub_opp (x y : spec_float) :
  sameNumber (SF64sub (SFopp x) (SFopp y)) (SFopp (SF64sub x y)).
Proof.
  destruct x as [sx | sx | | sx mx ex], y as [sy | sy | | sy my ey];
    try (simpl; repeat match goal with b : bool |- _ => destruct b end;
         simpl; auto; fail).
  cbn [SF64sub SFsub SFopp]. rewrite !cond_Zopp_negb.
  replace (- cond_Zopp sx (Z.pos (fst (shl_align mx ex (Z.min ex ey)))) -
           - cond_Zopp sy (Z.pos (fst (shl_align my ey (Z.min ex ey)))))%Z
    with (- (cond_Zopp sx (Z.pos (fst (shl_align mx ex (Z.min ex ey)))) -
             cond_Zopp sy (Z.pos (fst (shl_align my ey (Z.min ex ey))))))%Z
    by lia.
  apply binary_normalize_opp.
Qed.

(** Exchanging the two operands of a difference negates it. *)
Lemma SFsub_exchange (x y : spec_float) :
  sameNumber (SF64sub y x) (SFopp (SF64sub x y)).
Proof.
  destruct x as [sx | sx | | sx mx ex], y as [sy | sy | | sy my ey];
    try (simpl; repeat match goal with b : bool |- _ => destruct b end;
         simpl; auto; fail).
  cbn [SF64sub SFsub]. rewrite (Z.min_comm ey ex).
  replace (cond_Zopp sy (Z.pos (fst (shl_align my ey (Z.min ex ey)))) -
           cond_Zopp sx (Z.pos (fst (shl_align mx ex (Z.min ex ey)))))%Z
    with (- (cond_Zopp sx (Z.pos (fst (shl_align mx ex (Z.min ex ey)))) -
             cond_Zopp sy (Z.pos (fst (shl_align my ey (Z.min ex ey))))))%Z
    by lia.
  apply binary_normalize_opp.
Qed.

(** What the comparisons with zero make of a negated number. *)
Lemma negated_tests (u v : spec_float) :
  sameNumber u (SFopp v) ->
  SFltb (S754_zero false) u = SFltb v (S754_zero false) /\
  SFltb u (S754_zero false) = SFltb (S754_zero false) v /\
  SFleb u (S754_zero false) = SFleb (S754_zero false) v /\
  SFleb (S754_zero false) u = SFleb v (S754_zero false) /\
  SFeqb u (S754_zero false) = SFeqb v (S754_zero false).
Proof.
  destruct u as [? | [] | | [] ? ?], v as [? | [] | | [] ? ?]; simpl; intros H;
    try discriminate H; repeat split; reflexivity.
Qed.

Lemma isLeft64_mirror (a b c : Position64) :
  sameNumber (Prim2SF (isLeft64 (mirror64 a) (mirror64 b) (mirror64 c)))
             (SFopp (Prim2SF (isLeft64 a b c))).
Proof.
  unfold isLeft64, mirror64. cbn [fst snd].
  rewrite !(sub_spec (_ * _) (_ * _)), !mul_spec.
  rewrite !(sub_spec (- _) (- _)), !opp_spec.
  set (X1 := Prim2SF (fst b - fst a)). set (X2 := Prim2SF (fst c - fst a)).
  rewrite (sub_spec (snd c) (snd a)), (sub_spec (snd b) (snd a)).
  set (A := Prim2SF (snd a)). set (B := Prim2SF (snd b)). set (C := Prim2SF (snd c)).
  apply (@sameNumber_trans _
           (SF64sub (SFopp (SF64mul X1 (SF64sub C A)))
                    (SFopp (SF64mul X2 (SF64sub B A))))).
  - apply sameNumber_sub.
    + rewrite <- SFmul_opp_r. apply sameNumber_mul_r. apply SFsub_opp.
    + rewrite <- SFmul_opp_r. apply sameNumber_mul_r. apply SFsub_opp.
  - apply SFsub_opp.
Qed.

Lemma isLeft64_mirror_tests (a b c : Position64) :
  (0 <? isLeft64 (mirror64 a) (mirror64 b) (mirror64 c))%float =
    (isLeft64 a b c <? 0)%float /\
  (isLeft64 (mirror64 a) (mirror64 b) (mirror64 c) <? 0)%float =
    (0 <? isLeft64 a b c)%float /\
  (isLeft64 (mirror64 a) (mirror64 b) (mirror64 c) <=? 0)%float =
    (0 <=? isLeft64 a b c)%float /\
  (0 <=? isLeft64 (mirror64 a) (mirror64 b) (mirror64 c))%float =
    (isLeft64 a b c <=? 0)%float /\
  (isLeft64 (mirror64 a) (mirror64 b) (mirror64 c) =? 0)%float =
    (isLeft64 a b c =? 0)%float.
Proof.
  rewrite !gt0_spec, !lt0_spec, !le0_spec, !eq0_spec.
  rewrite !FloatAxioms.leb_spec.
  change (Prim2SF 0) with (S754_zero false).
  apply negated_tests. apply isLeft64_mirror.
Qed.

(** Exchanging the last two points of [isLeft] negates it, in binary64 as
    in exact arithmetic: the two products are the same two numbers. *)
Lemma isLeft64_exchange (p1 p2 p3 : Position64) :
  sameNumber (Prim2SF (isLeft64 p1 p3 p2)) (SFopp (Prim2SF (isLeft64 p1 p2 p3))).
Proof.
  unfold isLeft64. rewrite !(sub_spec (_ * _) (_ * _)). apply SFsub_exchange.
Qed.

(** ** The reflected run, where no orientation is zero *)














(** ** Binary64 runs that rounding does not turn *)

Lemma agrees_spec (computed : float) (x : Q) :
  agrees computed x = true ->
  (0 <? computed)%float = Qltb 0 x /\
  (computed <=? 0)%float = Qle_bool x 0 /\
  (computed <? 0)%float = Qltb x 0.
Proof.
  unfold agrees. rewrite !andb_true_iff. intros [[H1 H2] H3].
  apply Bool.eqb_prop in H1, H2, H3. auto.
Qed.

Lemma exactOrientation_spec (pt : Position64) (pts : list Position64)
    (a b : Position64) :
  exactOrientation pt pts = true -> In a pts -> In b pts ->
  agrees (isLeft64 a b pt)
    (isLeft (exactPosition a) (exactPosition b) (exactPosition pt)) = true /\
  agrees (isLeft64 pt a b)
    (isLeft (exactPosition pt) (exactPosition a) (exactPosition b)) = true.
Proof.
  unfold exactOrientation. rewrite !andb_true_iff.
  intros [_ H] Ha Hb. rewrite forallb_forall in H.
  specialize (H a Ha). rewrite forallb_forall in H. specialize (H b Hb).
  apply andb_true_iff in H. exact H.
Qed.

Section Exact.

Variable pt : Position64.
Variable pts : list Position64.
Hypothesis Hexact : exactOrientation pt pts = true.

Lemma sweepBody64_exact (ring : Ring64) (i : nat) (st64 : Sweep64) (st : Sweep) :
  incl ring pts ->
  tracks pts st64 st ->
  match sweepBody64 ring pt i st64,
        sweepBody (map exactPosition ring) (exactPosition pt) i st with
  | Ok a64, Ok a => tracks pts a64 a
  | Thrown, Thrown => True
  | _, _ => False
  end.
Proof.
  intros Hin (Hgt & Hle & Hr & Hl & Mr & Ml). unfold sweepBody64, sweepBody.
  rewrite length_map, !nth_error_map.
  destruct (nth_error ring i) as [cur |] eqn:Hc; cbn [option_map defined bind];
    [| exact I].
  replace (if Nat.eqb i (length ring - 1)
           then option_map exactPosition (nth_error ring 0)
           else option_map exactPosition (nth_error ring (i + 1)))
    with (option_map exactPosition
            (if Nat.eqb i (length ring - 1) then nth_error ring 0
             else nth_error ring (i + 1)))
    by (destruct (Nat.eqb i (length ring - 1)); reflexivity).
  destruct (if Nat.eqb i (length ring - 1) then nth_error ring 0
            else nth_error ring (i + 1)) as [next |] eqn:Hn;
    cbn [option_map defined bind]; [| exact I].
  assert (Hcur : In cur pts) by (apply Hin; apply (@nth_error_In _ _ _ _ Hc)).
  assert (Hnext : In next pts).
  { apply Hin. destruct (Nat.eqb i (length ring - 1));
      apply (@nth_error_In _ _ _ _ Hn). }
  destruct (@exactOrientation_spec pt pts cur next Hexact Hcur Hnext) as [He _].
  apply agrees_spec in He. destruct He as (Egt & Ele & _).
  rewrite <- Hgt, <- Hle, <- Egt, <- Ele, Hr, Hl.
  destruct ((st_eprev64 st64 <=? 0)%float && (0 <? isLeft64 cur next pt)%float).
  - destruct (st_rtan64 st64) as [r |] eqn:Er; cbn [option_map defined bind];
      [| exact I].
    destruct (@exactOrientation_spec pt pts cur r Hexact Hcur (Mr r eq_refl))
      as [_ Ht].
    apply agrees_spec in Ht. destruct Ht as (_ & _ & Tlt).
    unfold isBelow, isBelow64. rewrite <- Tlt.
    unfold tracks. cbn [st_eprev64 st_rtan64 st_ltan64 st_eprev st_rtan st_ltan].
    split; [exact Egt |]. split; [exact Ele |].
    destruct (negb (isLeft64 pt cur r <? 0)%float).
    + split; [reflexivity |]. split; [reflexivity |].
      split; [intros x [= <-]; exact Hcur | exact Ml].
    + split; [reflexivity |]. split; [reflexivity |].
      split; [intros x [= <-]; apply (Mr r eq_refl) | exact Ml].
  - destruct ((0 <? st_eprev64 st64)%float && (isLeft64 cur next pt <=? 0)%float).
    + destruct (st_ltan64 st64) as [l |] eqn:El; cbn [option_map defined bind];
        [| exact I].
      destruct (@exactOrientation_spec pt pts cur l Hexact Hcur (Ml l eq_refl))
        as [_ Ht].
      apply agrees_spec in Ht. destruct Ht as (Tgt & _ & _).
      unfold isAbove, isAbove64. rewrite <- Tgt.
      unfold tracks. cbn [st_eprev64 st_rtan64 st_ltan64 st_eprev st_rtan st_ltan].
      split; [exact Egt |]. split; [exact Ele |].
      destruct (negb (0 <? isLeft64 pt cur l)%float).
      * split; [reflexivity |]. split; [reflexivity |].
        split; [exact Mr | intros x [= <-]; exact Hcur].
      * split; [reflexivity |]. split; [reflexivity |].
        split; [exact Mr | intros x [= <-]; apply (Ml l eq_refl)].
    + unfold tracks. cbn [st_eprev64 st_rtan64 st_ltan64 st_eprev st_rtan st_ltan].
      split; [exact Egt |]. split; [exact Ele |].
      split; [reflexivity |]. split; [reflexivity |]. split; assumption.
Qed.

Lemma sweepLoop64_exact (ring : Ring64) (n : nat) :
  incl ring pts ->
  forall (i : nat) (st64 : Sweep64) (st : Sweep),
  tracks pts st64 st ->
  match sweepLoop64 ring pt n i st64,
        sweepLoop (map exactPosition ring) (exactPosition pt) n i st with
  | Ok a64, Ok a => tracks pts a64 a
  | Thrown, Thrown => True
  | _, _ => False
  end.
Proof.
  intros Hin. induction n as [| n IH]; intros i st64 st Hs;
    cbn [sweepLoop64 sweepLoop]; [exact Hs |].
  pose proof (@sweepBody64_exact ring i st64 st Hin Hs) as Hb.
  destruct (sweepBody64 ring pt i st64) as [a64 |],
           (sweepBody (map exactPosition ring) (exactPosition pt) i st) as [a |];
    cbn [bind]; try contradiction; [| exact I].
  apply IH. exact Hb.
Qed.

Lemma processPolygon64_exact (ring : Ring64) (e64 : float) (e : Q)
    (rtan ltan : option Position64) :
  incl ring pts ->
  (0 <? e64)%float = Qltb 0 e ->
  (e64 <=? 0)%float = Qle_bool e 0 ->
  (forall r, rtan = Some r -> In r pts) ->
  (forall l, ltan = Some l -> In l pts) ->
  sameTangents pts
    (processPolygon64 ring pt e64 rtan ltan)
    (processPolygon (map exactPosition ring) (exactPosition pt) e
       (option_map exactPosition rtan) (option_map exactPosition ltan)).
Proof.
  intros Hin Hgt Hle Mr Ml. unfold processPolygon64, processPolygon.
  rewrite length_map.
  assert (Hs : tracks pts (mkSweep64 e64 rtan ltan)
                 (mkSweep e (option_map exactPosition rtan)
                    (option_map exactPosition ltan)))
    by (unfold tracks; cbn; auto 10).
  pose proof (@sweepLoop64_exact ring (length ring) Hin 0 _ _ Hs) as H.
  destruct (sweepLoop64 ring pt (length ring) 0 (mkSweep64 e64 rtan ltan))
    as [a64 |],
    (sweepLoop (map exactPosition ring) (exactPosition pt) (length ring) 0 _)
    as [a |];
    cbn [bind sameTangents]; try contradiction; [| exact I].
  destruct H as (_ & _ & Hr & Hl & Mr' & Ml'). auto.
Qed.

Lemma sweepAll64_exact (polys : list (list Ring64)) (e64 : float) (e : Q) :
  (forall polygon outer, In polygon polys -> nth_error polygon 0 = Some outer ->
     incl outer pts) ->
  (0 <? e64)%float = Qltb 0 e ->
  (e64 <=? 0)%float = Qle_bool e 0 ->
  forall rtan ltan : option Position64,
  (forall r, rtan = Some r -> In r pts) ->
  (forall l, ltan = Some l -> In l pts) ->
  sameTangents pts
    (sweepAll64 polys pt e64 rtan ltan)
    (sweepAll (map (map (map exactPosition)) polys) (exactPosition pt) e
       (option_map exactPosition rtan) (option_map exactPosition ltan)).
Proof.
  intros Hin Hgt Hle.
  induction polys as [| p polys IH]; intros rtan ltan Mr Ml;
    cbn [map sweepAll64 sweepAll].
  - cbn [sameTangents]. auto.
  - destruct p as [| outer holes]; cbn [map nth_error defined bind];
      [exact I |].
    pose proof (@processPolygon64_exact outer e64 e rtan ltan
                  (Hin (outer :: holes) outer (or_introl eq_refl) eq_refl)
                  Hgt Hle Mr Ml) as H.
    destruct (processPolygon64 outer pt e64 rtan ltan) as [[r64 l64] |],
             (processPolygon (map exactPosition outer) (exactPosition pt) e
                (option_map exactPosition rtan) (option_map exactPosition ltan))
               as [[r l] |];
      cbn [sameTangents] in H; try contradiction; cbn [bind fst snd];
      [| exact I].
    destruct H as (-> & -> & Mr' & Ml').
    apply IH; [| exact Mr' | exact Ml'].
    intros q o Hq. apply Hin. right. exact Hq.
Qed.

End Exact.

(** ** First and last vertex around the reference point, in binary64 *)


Lemma closedOuter64_exact (polys : list (list Ring64))
    (bodies : list (list Position64)) :
  Forall2 closedOuter64 polys bodies ->
  Forall2 closedOuter (map (map (map exactPosition)) polys)
    (map (map exactPosition) bodies).
Proof.
  induction 1 as [| p b ps bs Hp HF IH]; cbn [map]; constructor; [| exact IH].
  destruct Hp as [v0 v1 rest holes]. cbn [map]. rewrite map_app. cbn [map].
  constructor.
Qed.

Lemma closedOuter64_incl (polys : list (list Ring64))
    (bodies : list (list Position64)) :
  Forall2 closedOuter64 polys bodies ->
  forall polygon outer, In polygon polys -> nth_error polygon 0 = Some outer ->
  incl outer (concat bodies).
Proof.
  induction 1 as [| p b ps bs Hp HF IH]; intros polygon outer; [intros [] |].
  change (concat (b :: bs)) with (b ++ concat bs).
  intros [<- | Hin] E v Hv.
  - destruct Hp as [v0 v1 rest holes]. cbn [nth_error] in E.
    injection E as <-. apply in_or_app. left.
    change (v0 :: v1 :: rest ++ [v0]) with ((v0 :: v1 :: rest) ++ [v0]) in Hv.
    apply in_app_or in Hv. destruct Hv as [Hv | [<- | []]];
      [exact Hv | left; reflexivity].
  - apply in_or_app. right. apply (IH polygon outer Hin E v Hv).
Qed.

Lemma closed_last64 (v0 v1 : Position64) (rest : list Position64) :
  at_index (v0 :: v1 :: rest ++ [v0])
    (Z.of_nat (length (v0 :: v1 :: rest ++ [v0])) - 1) = Some v0.
Proof.
  rewrite (@at_index_last _ _ v0) by discriminate.
  change (v0 :: v1 :: rest ++ [v0]) with ((v0 :: v1 :: rest) ++ [v0]).
  rewrite last_last. reflexivity.
Qed.

Lemma seed_agrees (pt : Position64) (pts : list Position64) (v0 : Position64) :
  exactOrientation pt pts = true -> In v0 pts ->
  (0 <? isLeft64 v0 v0 pt)%float =
    Qltb 0 (isLeft (exactPosition v0) (exactPosition v0) (exactPosition pt)) /\
  (isLeft64 v0 v0 pt <=? 0)%float =
    Qle_bool (isLeft (exactPosition v0) (exactPosition v0) (exactPosition pt)) 0.
Proof.
  intros Hexact H0.
  destruct (@exactOrientation_spec pt pts v0 v0 Hexact H0 H0) as [He _].
  apply agrees_spec in He. tauto.
Qed.

(** Without a lookup, for closed outer rings that a line separates from
    the reference point, without ties and with no orientation test turned
    by rounding, the program returns the first and the last vertex of the
    outer rings in the order around the reference point. *)
Lemma tangents_first_last64
    (calcBbox64 : Geometry64 -> BBox64)
    (explode64 : Geometry64 -> list Position64)
    (nearestPoint64 : Position64 -> list Position64 -> result Nearest64)
    (pt : Position64) (g : Geometry64) (bodies : list (list Position64))
    (d : Position) :
  polygonsOf64 g <> [] ->
  Forall2 closedOuter64 (polygonsOf64 g) bodies ->
  lookupNearest64 calcBbox64 explode64 nearestPoint64 pt g = Ok None ->
  (forall v, In v (concat bodies) ->
     0 < side (exactPosition pt) d (exactPosition v)) ->
  noTies (exactPosition pt) (map exactPosition (concat bodies)) ->
  exactOrientation pt (concat bodies) = true ->
  exists rtan ltan,
    polygonTangents64 calcBbox64 explode64 nearestPoint64 pt g =
      Ok (Some rtan, Some ltan) /\
    In rtan (concat bodies) /\ In ltan (concat bodies) /\
    (forall v, In v (concat bodies) ->
       before (exactPosition pt) (exactPosition rtan) (exactPosition v)) /\
    (forall v, In v (concat bodies) ->
       before (exactPosition pt) (exactPosition v) (exactPosition ltan)).
Proof.
  intros Hne HF Hlook Hside Hties Hexact.
  assert (Hside' : forall v, In v (map exactPosition (concat bodies)) ->
                             0 < side (exactPosition pt) d v).
  { intros v Hv. apply in_map_iff in Hv. destruct Hv as (x & <- & Hx).
    apply Hside. exact Hx. }
  assert (Hshape : exists v0 v1 rest holes ps bs,
            polygonsOf64 g = ((v0 :: v1 :: rest ++ [v0]) :: holes) :: ps /\
            bodies = (v0 :: v1 :: rest) :: bs).
  { inversion HF as [| p b ps bs Hp HF' E1 E2]; [congruence |].
    destruct Hp as [v0 v1 rest holes]. exists v0, v1, rest, holes, ps, bs.
    split; reflexivity. }
  destruct Hshape as (v0 & v1 & rest & holes & ps & bs & Eg & Eb).
  assert (H0 : In v0 (concat bodies)) by (rewrite Eb; left; reflexivity).
  destruct (@seed_agrees pt (concat bodies) v0 Hexact H0) as [Sgt Sle].
  assert (He : isLeft (exactPosition v0) (exactPosition v0) (exactPosition pt) <= 0)
    by (rewrite isLeft_degenerate; apply Qle_refl).
  assert (Hseed : forall x, Some v0 = Some x -> In x (concat bodies))
    by (intros x [= <-]; exact H0).
  assert (Hfinish : forall (r64 : result (option Position64 * option Position64))
                      (r l : Position),
            sameTangents (concat bodies) r64 (Ok (Some r, Some l)) ->
            extremes (exactPosition pt) d (map exactPosition (concat bodies))
              (exactPosition v0) (exactPosition v0) r l ->
            exists rtan ltan,
              r64 = Ok (Some rtan, Some ltan) /\
              In rtan (concat bodies) /\ In ltan (concat bodies) /\
              (forall v, In v (concat bodies) ->
                 before (exactPosition pt) (exactPosition rtan) (exactPosition v)) /\
              (forall v, In v (concat bodies) ->
                 before (exactPosition pt) (exactPosition v) (exactPosition ltan))).
  { intros r64 r l Hsame (_ & _ & _ & _ & _ & _ & A & B).
    destruct r64 as [[[rtan |] [ltan |]] |]; cbn [sameTangents option_map] in Hsame;
      try contradiction;
      try (destruct Hsame as (Hr & Hl & _); discriminate).
    destruct Hsame as (Hr & Hl & Mr & Ml).
    injection Hr as ->. injection Hl as ->.
    exists rtan, ltan. split; [reflexivity |].
    split; [apply Mr; reflexivity |]. split; [apply Ml; reflexivity |].
    split; intros v Hv; [apply A | apply B]; apply in_map; exact Hv. }
  destruct g as [rings | polys]; cbn [polygonsOf64] in *.
  - injection Eg as Er Ep. subst rings ps bodies.
    inversion HF as [| ? ? ? ? _ HF' E1 E2]. inversion HF'; subst.
    cbn [concat] in *. rewrite app_nil_r in *.
    destruct (@processPolygon_extremes (exactPosition pt) d (exactPosition v0)
                (exactPosition v1) (map exactPosition rest)
                (isLeft (exactPosition v0) (exactPosition v0) (exactPosition pt))
                (exactPosition v0) (exactPosition v0))
      as (r & l & E & X); try assumption.
    { apply Hside'. left. reflexivity. }
    { apply Hside'. left. reflexivity. }
    { inversion Hties as [| ? ? Ha _]; subst. inversion Ha; subst. assumption. }
    apply (Hfinish _ r l); [| exact X].
    unfold polygonTangents64. rewrite Hlook.
    cbn [bind defined indexOf64].
    change (nth_error ((v0 :: v1 :: rest ++ [v0]) :: holes) 0)
      with (Some (v0 :: v1 :: rest ++ [v0])).
    cbn [bind defined].
    change (nth_error (v0 :: v1 :: rest ++ [v0]) 0) with (Some v0).
    cbn [bind defined]. rewrite closed_last64. cbn [bind defined].
    rewrite <- E.
    replace (exactPosition v0 :: exactPosition v1 ::
               map exactPosition rest ++ [exactPosition v0])
      with (map exactPosition (v0 :: v1 :: rest ++ [v0]))
      by (cbn [map]; rewrite map_app; reflexivity).
    apply (@processPolygon64_exact pt (v0 :: v1 :: rest) Hexact
             (v0 :: v1 :: rest ++ [v0]) _ _ (Some v0) (Some v0));
      try assumption.
    intros v Hv.
    change (v0 :: v1 :: rest ++ [v0]) with ((v0 :: v1 :: rest) ++ [v0]) in Hv.
    apply in_app_or in Hv. destruct Hv as [Hv | [<- | []]];
      [exact Hv | left; reflexivity].
  - subst polys.
    destruct (@sweepAll_extremes (exactPosition pt) d
                (isLeft (exactPosition v0) (exactPosition v0) (exactPosition pt))
                _ _ (closedOuter64_exact HF) He)
      with (rin := exactPosition v0) (lin := exactPosition v0)
      as (r & l & E & X).
    { rewrite <- concat_map. exact Hside'. }
    { rewrite <- concat_map. exact Hties. }
    { apply Hside'. apply in_map. exact H0. }
    { apply Hside'. apply in_map. exact H0. }
    rewrite <- concat_map in X.
    apply (Hfinish _ r l); [| exact X].
    unfold polygonTangents64. rewrite Hlook.
    cbn [bind defined indexOf64].
    change (nth_error (((v0 :: v1 :: rest ++ [v0]) :: holes) :: ps) 0)
      with (Some ((v0 :: v1 :: rest ++ [v0]) :: holes)).
    cbn [bind defined locateVertex64 length countVertices Nat.eqb].
    change (nth_error ((v0 :: v1 :: rest ++ [v0]) :: holes) 0)
      with (Some (v0 :: v1 :: rest ++ [v0])).
    cbn [bind defined].
    change (nth_error (v0 :: v1 :: rest ++ [v0]) 0) with (Some v0).
    cbn [bind defined]. rewrite closed_last64. cbn [bind defined].
    rewrite <- E.
    apply (@sweepAll64_exact pt (concat bodies) Hexact
             (((v0 :: v1 :: rest ++ [v0]) :: holes) :: ps) _ _
             (closedOuter64_incl HF) Sgt Sle (Some v0) (Some v0) Hseed Hseed).
Qed.

(** ** Reflection across the x-axis, in binary64 *)











Lemma noTies_exact_unique (pt : Position) (vs : list Position64) :
  noTies pt (map exactPosition vs) ->
  forall a b, In a vs -> In b vs ->
  isLeft pt (exactPosition a) (exactPosition b) == 0 -> a = b.
Proof.
  unfold noTies. induction vs as [| v vs IH]; cbn [map]; intros H a b;
    [intros [] |].
  inversion H as [| ? ? Hv Hl]; subst. rewrite Forall_map in Hv.
  rewrite Forall_forall in Hv.
  intros [<- | Ha] [<- | Hb] E.
  - reflexivity.
  - exfalso. apply (Hv b Hb). exact E.
  - exfalso. apply (Hv a Ha). rewrite isLeft_anti, E. reflexivity.
  - apply (IH Hl a b Ha Hb E).
Qed.


(** ** The labels after reflection, in binary64 *)



(** The square seen from (8, 2) in binary64, and its reflection. *)
Lemma mirror_square_binary64 :
  tangents64 (8, 2)%float (Polygon64 [square64]) =
    Ok (Some (4, 4)%float, Some (4, 0)%float) /\
  tangents64 (mirror64 (8, 2)%float) (mirrorGeometry64 (Polygon64 [square64])) =
    Ok (Some (4, -0)%float, Some (4, -4)%float).
Proof. split; vm_compute; reflexivity. Qed.

(** A ring left open, seen from a point on no line of an edge: no computed
    orientation is zero and the labels are exchanged. *)
Lemma mirror_open_ring :
  noZeroOrientation (8, 1)%float (Polygon64 [openTriangle64]) = true /\
  tangents64 (8, 1)%float (Polygon64 [openTriangle64]) =
    Ok (Some (0, 4)%float, Some (4, 0)%float) /\
  tangents64 (mirror64 (8, 1)%float)
    (mirrorGeometry64 (Polygon64 [openTriangle64])) =
    Ok (Some (4, -0)%float, Some (0, -4)%float).
Proof. repeat split; vm_compute; reflexivity. Qed.

(** Rounding alone breaks the exchange.  The triangle [sliver64] has
    integer coordinates, is closed, lies in the open half-plane right of
    the origin and has no two vertices on one line with the origin; the
    origin is outside its bounding box.  The exact orientation of its first
    edge seen from the origin is 1 and the computed one is 0, so the
    program misses the turn at the first vertex: it returns the third and
    the first vertex, and on the reflected triangle the reflections of the
    second and the third. *)
Lemma mirror_rounded_orientation :
  lookupNearest64 calcBbox64 explode64 nearestPoint64 (0, 0)%float
    (Polygon64 [sliver64]) = Ok None /\
  lookupNearest64 calcBbox64 explode64 nearestPoint64 (mirror64 (0, 0)%float)
    (mirrorGeometry64 (Polygon64 [sliver64])) = Ok None /\
  Forall2 closedOuter64 [[sliver64]] [removelast sliver64] /\
  (forall v, In v (removelast sliver64) ->
     0 < side (exactPosition (0, 0)%float) (1, 0) (exactPosition v)) /\
  noTies (exactPosition (0, 0)%float) (map exactPosition (removelast sliver64)) /\
  isLeft (exactPosition (353454709, 425664383)%float)
    (exactPosition (1017711075, 1225626214)%float)
    (exactPosition (0, 0)%float) == 1 /\
  (isLeft64 (353454709, 425664383) (1017711075, 1225626214) (0, 0) =? 0)%float
    = true /\
  exactOrientation (0, 0)%float (removelast sliver64) = false /\
  tangents64 (0, 0)%float (Polygon64 [sliver64]) =
    Ok (Some (525264298, 614191760)%float, Some (353454709, 425664383)%float) /\
  tangents64 (mirror64 (0, 0)%float) (mirrorGeometry64 (Polygon64 [sliver64])) =
    Ok (Some (1017711075, -1225626214)%float,
        Some (525264298, -614191760)%float) /\
  tangents64 (mirror64 (0, 0)%float) (mirrorGeometry64 (Polygon64 [sliver64])) <>
    swapMirror64 (tangents64 (0, 0)%float (Polygon64 [sliver64])).
Proof.
  split; [vm_compute; reflexivity |].
  split; [vm_compute; reflexivity |].
  split; [constructor; [| constructor];
          exact (closedOuter64_intro (353454709, 425664383)%float
                   (1017711075, 1225626214)%float
                   [(525264298, 614191760)%float] []) |].
  split; [intros v Hv; simpl in Hv;
          repeat (destruct Hv as [<- | Hv]; [vm_compute; reflexivity |]);
          destruct Hv |].
  split; [unfold noTies; simpl; repeat constructor; vm_compute; discriminate |].
  split; [vm_compute; reflexivity |].
  split; [vm_compute; reflexivity |].
  split; [vm_compute; reflexivity |].
  split; [vm_compute; reflexivity |].
  split; [vm_compute; reflexivity |].
  vm_compute. discriminate.
Qed.

(** The square seen from (8, 0), on the line of its lower edge, in
    binary64: a computed orientation is zero, two vertices are on one line
    with the reference point, and the reflected input does not return the
    exchanged reflections. *)
Lemma mirror_keeps_collinear_vertex_binary64 :
  noZeroOrientation (8, 0)%float (Polygon64 [square64]) = false /\
  isLeft (exactPosition (8, 0)%float) (exactPosition (0, 0)%float)
    (exactPosition (4, 0)%float) == 0 /\
  tangents64 (8, 0)%float (Polygon64 [square64]) =
    Ok (Some (4, 4)%float, Some (0, 0)%float) /\
  tangents64 (mirror64 (8, 0)%float) (mirrorGeometry64 (Polygon64 [square64])) =
    Ok (Some (4, -0)%float, Some (4, -4)%float) /\
  tangents64 (mirror64 (8, 0)%float) (mirrorGeometry64 (Polygon64 [square64])) <>
    swapMirror64 (tangents64 (8, 0)%float (Polygon64 [square64])).
Proof.
  split; [vm_compute; reflexivity |].
  split; [vm_compute; reflexivity |].
  split; [vm_compute; reflexivity |].
  split; [vm_compute; reflexivity |].
  vm_compute. discriminate.
Qed.

(** Inside the bounding box the exchange fails in binary64 as well: the
    Polygon case seeds [ltan] at the nearest vertex only when that vertex
    is below the reference point, which the reflection turns around. *)
Lemma mirror_inside_bbox_binary64 :
  insideBbox64 (2, 2)%float (calcBbox64 (Polygon64 [dart64])) = true /\
  tangents64 (2, 2)%float (Polygon64 [dart64]) =
    Ok (Some (2, 0)%float, Some (0, 4)%float) /\
  tangents64 (mirror64 (2, 2)%float) (mirrorGeometry64 (Polygon64 [dart64])) =
    Ok (Some (0, -4)%float, Some (0, -4)%float).
Proof. repeat split; vm_compute; reflexivity. Qed.

(** The line that has the vertices on one side is needed where nothing
    makes the lookup happen: the closed ring below encloses the reference
    point (1, 1), no line through which has the vertices (0, 0), (2, 1)
    and (1, 6) on one side; with a bounding box that holds no point the
    run has no ties and rounds nothing, and the reflected input does not
    return the exchanged reflections. *)
Lemma mirror_enclosed_point :
  let ring := [(0, 0); (2, 1); (5, 0); (1, 6); (2, 4); (0, 0)]%float in
  let noBox := fun _ : Geometry64 => mkBBox64 0 0 0 0 in
  lookupNearest64 noBox explode64 nearestPoint64 (1, 1)%float
    (Polygon64 [ring]) = Ok None /\
  lookupNearest64 noBox explode64 nearestPoint64 (mirror64 (1, 1)%float)
    (mirrorGeometry64 (Polygon64 [ring])) = Ok None /\
  Forall2 closedOuter64 [[ring]] [removelast ring] /\
  noTies (exactPosition (1, 1)%float) (map exactPosition (removelast ring)) /\
  exactOrientation (1, 1)%float (removelast ring) = true /\
  (forall d : Position,
     ~ (0 < side (exactPosition (1, 1)%float) d (exactPosition (0, 0)%float) /\
        0 < side (exactPosition (1, 1)%float) d (exactPosition (2, 1)%float) /\
        0 < side (exactPosition (1, 1)%float) d (exactPosition (1, 6)%float))) /\
  polygonTangents64 noBox explode64 nearestPoint64 (1, 1)%float
    (Polygon64 [ring]) = Ok (Some (2, 4)%float, Some (0, 0)%float) /\
  polygonTangents64 noBox explode64 nearestPoint64 (mirror64 (1, 1)%float)
    (mirrorGeometry64 (Polygon64 [ring])) =
    Ok (Some (1, -6)%float, Some (2, -4)%float).
Proof.
  intros ring noBox.
  split; [vm_compute; reflexivity |].
  split; [vm_compute; reflexivity |].
  split; [constructor; [| constructor];
          exact (closedOuter64_intro (0, 0)%float (2, 1)%float
                   [(5, 0); (1, 6); (2, 4)]%float []) |].
  split; [unfold noTies; simpl; repeat constructor; vm_compute; discriminate |].
  split; [vm_compute; reflexivity |].
  split; [| split; vm_compute; reflexivity].
  intros [d1 d2] (H1 & H2 & H3). unfold side, exactPosition in H1, H2, H3.
  cbn [fst snd] in H1, H2, H3.
  assert (E0 : exact 0%float == 0) by (vm_compute; reflexivity).
  assert (E1 : exact 1%float == 1) by (vm_compute; reflexivity).
  assert (E2 : exact 2%float == 2) by (vm_compute; reflexivity).
  assert (E6 : exact 6%float == 6) by (vm_compute; reflexivity).
  rewrite E0, E1 in H1. rewrite E2, E1 in H2. rewrite E1, E6 in H3. lra.
Qed.

(** ** Supporting lines in binary64 *)

Lemma supportingLines64_intro (pt : Position64) (pts : list Position64)
    (rtan ltan : Position64) :
  exactOrientation pt pts = true ->
  In rtan pts -> In ltan pts ->
  (forall v, In v pts ->
     before (exactPosition pt) (exactPosition rtan) (exactPosition v)) ->
  (forall v, In v pts ->
     before (exactPosition pt) (exactPosition v) (exactPosition ltan)) ->
  supportingLines64 pt pts rtan ltan.
Proof.
  intros Hexact Mr Ml A B. unfold supportingLines64.
  split; [exact Mr |]. split; [exact Ml |]. split; intros v Hv.
  - split; [apply A; exact Hv |].
    destruct (@exactOrientation_spec pt pts rtan v Hexact Mr Hv) as [_ H].
    apply agrees_spec in H. destruct H as (_ & _ & H).
    unfold isBelow64. rewrite H. apply Qltb_ge. apply A. exact Hv.
  - pose proof (before_flip (B v Hv)) as Hle. split; [exact Hle |].
    destruct (@exactOrientation_spec pt pts ltan v Hexact Ml Hv) as [_ H].
    apply agrees_spec in H. destruct H as (H & _ & _).
    unfold isAbove64. rewrite H. apply Qltb_ge. exact Hle.
Qed.

Lemma supportingLines64_extremes (pt : Position64) (d : Position)
    (pts : list Position64) (rin lin : Position64)
    (r64 : result (option Position64 * option Position64)) (r l : Position) :
  exactOrientation pt pts = true ->
  In rin pts -> In lin pts ->
  sameTangents pts r64 (Ok (Some r, Some l)) ->
  extremes (exactPosition pt) d (map exactPosition pts)
    (exactPosition rin) (exactPosition lin) r l ->
  exists rtan ltan,
    r64 = Ok (Some rtan, Some ltan) /\ supportingLines64 pt pts rtan ltan.
Proof.
  intros Hexact Hrin Hlin Hsame (_ & _ & _ & _ & _ & _ & A & B).
  destruct r64 as [[[rtan |] [ltan |]] |]; cbn [sameTangents option_map] in Hsame;
    try contradiction;
    try (destruct Hsame as (Hr & Hl & _); discriminate).
  destruct Hsame as (Hr & Hl & Mr & Ml).
  injection Hr as ->. injection Hl as ->.
  exists rtan, ltan. split; [reflexivity |].
  apply supportingLines64_intro;
    [exact Hexact | apply Mr; reflexivity | apply Ml; reflexivity | |];
    intros v Hv; [apply A | apply B]; apply in_map; exact Hv.
Qed.

Lemma closed_ring_body64 (v0 v1 : Position64) (rest : list Position64)
    (s : Position64) :
  In s (v0 :: v1 :: rest ++ [v0]) -> In s (v0 :: v1 :: rest).
Proof.
  change (v0 :: v1 :: rest ++ [v0]) with ((v0 :: v1 :: rest) ++ [v0]).
  intros H. apply in_app_or in H. destruct H as [H | [<- | []]];
    [exact H | left; reflexivity].
Qed.

Lemma locateVertex64_single (idx : nat) (ring : Ring64) :
  ring <> [] ->
  exists cv s,
    locateVertex64 idx [ring] 0 0 0 0 = (0%nat, cv) /\
    nth_error ring cv = Some s.
Proof.
  intros Hne. cbn [locateVertex64].
  destruct (Nat.lt_ge_cases idx (length ring)) as [Hin | Hout].
  - rewrite countVertices_found by lia.
    destruct (nth_error ring (0 + (idx - 0))) as [s |] eqn:Es.
    + exists (0 + (idx - 0))%nat, s. split; [reflexivity | exact Es].
    + apply nth_error_None in Es. lia.
  - rewrite countVertices_passed by lia.
    destruct ring as [| v ring]; [congruence |]. cbn [length].
    destruct (nth_error (v :: ring) (0 + length ring)) as [s |] eqn:Es.
    + exists (0 + length ring)%nat, s. split; [reflexivity | exact Es].
    + apply nth_error_None in Es. cbn [length] in Es. lia.
Qed.

(** Supporting lines in the program's own arithmetic.  Without a lookup,
    for closed outer rings that a line through the reference point has
    strictly on one side, no two vertices on one line with the point,
    finite coordinates and no orientation test turned by rounding, the
    program returns two vertices of the outer rings such that no vertex is
    right of the ray to [rtan] and none left of the ray to [ltan]. *)
Theorem tangents_supporting_lines_binary64
    (calcBbox64 : Geometry64 -> BBox64)
    (explode64 : Geometry64 -> list Position64)
    (nearestPoint64 : Position64 -> list Position64 -> result Nearest64)
    (pt : Position64) (g : Geometry64) (bodies : list (list Position64))
    (d : Position) :
  polygonsOf64 g <> [] ->
  Forall2 closedOuter64 (polygonsOf64 g) bodies ->
  lookupNearest64 calcBbox64 explode64 nearestPoint64 pt g = Ok None ->
  (forall v, In v (concat bodies) ->
     0 < side (exactPosition pt) d (exactPosition v)) ->
  noTies (exactPosition pt) (map exactPosition (concat bodies)) ->
  exactOrientation pt (concat bodies) = true ->
  exists rtan ltan,
    polygonTangents64 calcBbox64 explode64 nearestPoint64 pt g =
      Ok (Some rtan, Some ltan) /\
    supportingLines64 pt (concat bodies) rtan ltan.
Proof.
  intros Hne HF Hlook Hside Hties Hexact.
  destruct (@tangents_first_last64 calcBbox64 explode64 nearestPoint64 pt g
              bodies d Hne HF Hlook Hside Hties Hexact)
    as (r & l & E & Mr & Ml & A & B).
  exists r, l. split; [exact E |].
  apply supportingLines64_intro; assumption.
Qed.

Lemma tangents_supporting_lines_binary64_witness :
  exists rtan ltan,
    tangents64 (8, -3)%float (MultiPolygon64 [[square64]; [squareEast64]]) =
      Ok (Some rtan, Some ltan) /\
    supportingLines64 (8, -3)%float
      (concat [removelast square64; removelast squareEast64]) rtan ltan.
Proof.
  apply (@tangents_supporting_lines_binary64 calcBbox64 explode64 nearestPoint64
           (8, -3)%float (MultiPolygon64 [[square64]; [squareEast64]])
           [removelast square64; removelast squareEast64] (0, 1)).
  - discriminate.
  - constructor; [| constructor; [| constructor]].
    + exact (closedOuter64_intro (0, 0)%float (4, 0)%float
               [(4, 4); (0, 4)]%float []).
    + exact (closedOuter64_intro (10, 0)%float (14, 0)%float
               [(14, 4); (10, 4)]%float []).
  - vm_compute. reflexivity.
  - intros v Hv. simpl in Hv.
    repeat (destruct Hv as [<- | Hv]; [vm_compute; reflexivity |]).
    destruct Hv.
  - unfold noTies. simpl. repeat constructor; vm_compute; discriminate.
  - vm_compute. reflexivity.
Defined.

(** The Polygon case in the program's own arithmetic, with the lookup: for
    a closed outer ring that a line through the reference point has
    strictly on one side, a nearest index that falls inside the outer
    ring, no two vertices on one line with the point, finite coordinates
    and no orientation test turned by rounding, the two results are
    vertices of the ring, no vertex is right of the ray to [rtan] and none
    left of the ray to [ltan]. *)
Theorem polygon_supporting_lines_binary64
    (calcBbox64 : Geometry64 -> BBox64)
    (explode64 : Geometry64 -> list Position64)
    (nearestPoint64 : Position64 -> list Position64 -> result Nearest64)
    (pt : Position64) (d : Position) (v0 v1 : Position64)
    (rest : list Position64) (holes : list Ring64)
    (nearest : option Nearest64) :
  let outer := v0 :: v1 :: rest ++ [v0] in
  let body := v0 :: v1 :: rest in
  lookupNearest64 calcBbox64 explode64 nearestPoint64 pt
    (Polygon64 (outer :: holes)) = Ok nearest ->
  (indexOf64 nearest < length outer)%nat ->
  (forall v, In v body -> 0 < side (exactPosition pt) d (exactPosition v)) ->
  noTies (exactPosition pt) (map exactPosition body) ->
  exactOrientation pt body = true ->
  exists rtan ltan,
    polygonTangents64 calcBbox64 explode64 nearestPoint64 pt
      (Polygon64 (outer :: holes)) = Ok (Some rtan, Some ltan) /\
    supportingLines64 pt body rtan ltan.
Proof.
  intros outer body Hlook Hidx Hside Hties Hexact.
  destruct (nth_error outer (indexOf64 nearest)) as [s |] eqn:Es.
  2: { apply nth_error_None in Es. lia. }
  assert (Hs : In s body)
    by (apply closed_ring_body64; apply (@nth_error_In _ outer _ _ Es)).
  assert (H0 : In v0 body) by (left; reflexivity).
  assert (Hside' : forall v, In v (map exactPosition body) ->
                             0 < side (exactPosition pt) d v).
  { intros v Hv. apply in_map_iff in Hv. destruct Hv as (x & <- & Hx).
    apply Hside. exact Hx. }
  assert (Hne : ~ isLeft (exactPosition pt) (exactPosition v0) (exactPosition v1) == 0).
  { inversion Hties as [| ? ? Ha _]; subst. inversion Ha; subst. assumption. }
  assert (He : isLeft (exactPosition v0) (exactPosition v0) (exactPosition pt) <= 0)
    by (rewrite isLeft_degenerate; apply Qle_refl).
  destruct (@seed_agrees pt body v0 Hexact H0) as [Sgt Sle].
  assert (Hsweep : forall rin lin : Position64, In rin body -> In lin body ->
    exists rtan ltan,
      processPolygon64 outer pt (isLeft64 v0 v0 pt) (Some rin) (Some lin) =
        Ok (Some rtan, Some ltan) /\
      supportingLines64 pt body rtan ltan).
  { intros rin lin Hrin Hlin.
    destruct (@processPolygon_extremes (exactPosition pt) d (exactPosition v0)
                (exactPosition v1) (map exactPosition rest)
                (isLeft (exactPosition v0) (exactPosition v0) (exactPosition pt))
                (exactPosition rin) (exactPosition lin))
      as (r & l & E & X); try assumption.
    { apply Hside'. apply in_map. exact Hrin. }
    { apply Hside'. apply in_map. exact Hlin. }
    apply (@supportingLines64_extremes pt d body rin lin _ r l Hexact Hrin Hlin);
      [| exact X].
    rewrite <- E.
    replace (exactPosition v0 :: exactPosition v1 ::
               map exactPosition rest ++ [exactPosition v0])
      with (map exactPosition outer)
      by (unfold outer; cbn [map]; rewrite map_app; reflexivity).
    apply (@processPolygon64_exact pt body Hexact outer _ _ (Some rin) (Some lin));
      try assumption.
    - intros v Hv. apply closed_ring_body64. exact Hv.
    - intros x [= <-]. exact Hrin.
    - intros x [= <-]. exact Hlin. }
  unfold polygonTangents64. rewrite Hlook. cbn [bind defined].
  change (nth_error (outer :: holes) 0) with (Some outer).
  cbn [bind defined]. rewrite Es.
  change (nth_error outer 0) with (Some v0).
  cbn [bind defined]. unfold outer at 1 2. rewrite closed_last64.
  cbn [bind defined]. fold outer.
  destruct nearest as [n |].
  - destruct (snd (coordinates64 n) <? snd pt)%float.
    + apply Hsweep; assumption.
    + apply Hsweep; assumption.
  - apply Hsweep; assumption.
Qed.

Lemma polygon_supporting_lines_binary64_witness :
  exists rtan ltan,
    tangents64 (1, 2)%float (Polygon64 [triangle64]) = Ok (Some rtan, Some ltan) /\
    supportingLines64 (1, 2)%float [(0, 6); (3, 0); (5, 0)]%float rtan ltan.
Proof.
  apply (@polygon_supporting_lines_binary64 calcBbox64 explode64 nearestPoint64
           (1, 2)%float (2, 1) (0, 6)%float (3, 0)%float [(5, 0)%float] []
           (Some (mkNearest64 1 (3, 0)%float))).
  - vm_compute. reflexivity.
  - simpl. lia.
  - intros v Hv. simpl in Hv.
    repeat (destruct Hv as [<- | Hv]; [vm_compute; reflexivity |]).
    destruct Hv.
  - unfold noTies. simpl. repeat constructor; vm_compute; discriminate.
  - vm_compute. reflexivity.
Defined.

(** The MultiPolygon case in the program's own arithmetic, whatever index
    the lookup returned: when the first polygon has no hole the walk ends
    on a vertex of its outer ring, and for closed outer rings that a line
    through the reference point has strictly on one side, no two vertices
    on one line with the point, finite coordinates and no orientation test
    turned by rounding, the sweeps return the two supporting lines of all
    the outer rings. *)
Theorem multipolygon_supporting_lines_binary64
    (calcBbox64 : Geometry64 -> BBox64)
    (explode64 : Geometry64 -> list Position64)
    (nearestPoint64 : Position64 -> list Position64 -> result Nearest64)
    (pt : Position64) (d : Position) (outer : Ring64)
    (others : list (list Ring64)) (bodies : list (list Position64))
    (nearest : option Nearest64) :
  Forall2 closedOuter64 ([outer] :: others) bodies ->
  lookupNearest64 calcBbox64 explode64 nearestPoint64 pt
    (MultiPolygon64 ([outer] :: others)) = Ok nearest ->
  (forall v, In v (concat bodies) ->
     0 < side (exactPosition pt) d (exactPosition v)) ->
  noTies (exactPosition pt) (map exactPosition (concat bodies)) ->
  exactOrientation pt (concat bodies) = true ->
  exists rtan ltan,
    polygonTangents64 calcBbox64 explode64 nearestPoint64 pt
      (MultiPolygon64 ([outer] :: others)) = Ok (Some rtan, Some ltan) /\
    supportingLines64 pt (concat bodies) rtan ltan.
Proof.
  intros HF Hlook Hside Hties Hexact.
  assert (Hside' : forall v, In v (map exactPosition (concat bodies)) ->
                             0 < side (exactPosition pt) d v).
  { intros v Hv. apply in_map_iff in Hv. destruct Hv as (x & <- & Hx).
    apply Hside. exact Hx. }
  assert (Hshape : exists v0 v1 rest bs,
            outer = v0 :: v1 :: rest ++ [v0] /\ bodies = (v0 :: v1 :: rest) :: bs).
  { inversion HF as [| p b ps bs Hp HF' E1 E2].
    inversion Hp as [v0 v1 rest holes E3 E4].
    exists v0, v1, rest, bs. split; reflexivity. }
  destruct Hshape as (v0 & v1 & rest & bs & -> & Eb).
  destruct (@locateVertex64_single (indexOf64 nearest) (v0 :: v1 :: rest ++ [v0]))
    as (cv & s & Eloc & Es); [discriminate |].
  assert (Hs : In s (concat bodies)).
  { rewrite Eb. change (concat ((v0 :: v1 :: rest) :: bs))
      with ((v0 :: v1 :: rest) ++ concat bs).
    apply in_or_app. left. apply closed_ring_body64.
    apply (@nth_error_In _ _ _ _ Es). }
  assert (H0 : In v0 (concat bodies)) by (rewrite Eb; left; reflexivity).
  destruct (@seed_agrees pt (concat bodies) v0 Hexact H0) as [Sgt Sle].
  assert (He : isLeft (exactPosition v0) (exactPosition v0) (exactPosition pt) <= 0)
    by (rewrite isLeft_degenerate; apply Qle_refl).
  assert (Hseed : forall x, Some s = Some x -> In x (concat bodies))
    by (intros x [= <-]; exact Hs).
  destruct (@sweepAll_extremes (exactPosition pt) d
              (isLeft (exactPosition v0) (exactPosition v0) (exactPosition pt))
              _ _ (closedOuter64_exact HF) He)
    with (rin := exactPosition s) (lin := exactPosition s)
    as (r & l & E & X).
  { rewrite <- concat_map. exact Hside'. }
  { rewrite <- concat_map. exact Hties. }
  { apply Hside'. apply in_map. exact Hs. }
  { apply Hside'. apply in_map. exact Hs. }
  rewrite <- concat_map in X.
  apply (@supportingLines64_extremes pt d (concat bodies) s s _ r l Hexact Hs Hs);
    [| exact X].
  unfold polygonTangents64. rewrite Hlook. cbn [bind defined].
  change (nth_error ([v0 :: v1 :: rest ++ [v0]] :: others) 0)
    with (Some [v0 :: v1 :: rest ++ [v0]]).
  cbn [bind defined]. unfold Ring64 in *. rewrite Eloc.
  change (nth_error [v0 :: v1 :: rest ++ [v0]] 0)
    with (Some (v0 :: v1 :: rest ++ [v0])).
  cbn [bind defined]. rewrite Es.
  change (nth_error (v0 :: v1 :: rest ++ [v0]) 0) with (Some v0).
  cbn [bind defined]. rewrite closed_last64. cbn [bind defined].
  rewrite <- E.
  apply (@sweepAll64_exact pt (concat bodies) Hexact
           ([v0 :: v1 :: rest ++ [v0]] :: others) _ _
           (closedOuter64_incl HF) Sgt Sle (Some s) (Some s) Hseed Hseed).
Qed.

Lemma multipolygon_supporting_lines_binary64_witness :
  exists rtan ltan,
    tangents64 (1, 2)%float
      (MultiPolygon64 [[triangle64]; [[(4, 5); (5, 5); (5, 7); (4, 5)]%float]]) =
      Ok (Some rtan, Some ltan) /\
    supportingLines64 (1, 2)%float
      (concat [[(0, 6); (3, 0); (5, 0)]; [(4, 5); (5, 5); (5, 7)]]%float)
      rtan ltan.
Proof.
  apply (@multipolygon_supporting_lines_binary64 calcBbox64 explode64
           nearestPoint64 (1, 2)%float (2, 1) triangle64
           [[[(4, 5); (5, 5); (5, 7); (4, 5)]%float]]
           [[(0, 6); (3, 0); (5, 0)]; [(4, 5); (5, 5); (5, 7)]]%float
           (Some (mkNearest64 1 (3, 0)%float))).
  - constructor; [| constructor; [| constructor]].
    + exact (closedOuter64_intro (0, 6)%float (3, 0)%float [(5, 0)%float] []).
    + exact (closedOuter64_intro (4, 5)%float (5, 5)%float [(5, 7)%float] []).
  - vm_compute. reflexivity.
  - intros v Hv. simpl in Hv.
    repeat (destruct Hv as [<- | Hv]; [vm_compute; reflexivity |]).
    destruct Hv.
  - unfold noTies. simpl. repeat constructor; vm_compute; discriminate.
  - vm_compute. reflexivity.
Defined.

(** In the program's own arithmetic, without a lookup, the result depends
    on the set of outer-ring vertices only: two geometries with the same
    outer-ring vertices, in whatever order, orientation, grouping into
    polygons or with whatever holes, have the same tangents, if a line
    separates the vertices from the reference point, no two of them are on
    one line with it, the coordinates are finite and rounding turns no
    orientation test. *)
Theorem tangents_same_vertices_binary64
    (calcBbox64 : Geometry64 -> BBox64)
    (explode64 : Geometry64 -> list Position64)
    (nearestPoint64 : Position64 -> list Position64 -> result Nearest64)
    (pt : Position64) (g g' : Geometry64)
    (bodies bodies' : list (list Position64)) (d : Position) :
  polygonsOf64 g <> [] ->
  Forall2 closedOuter64 (polygonsOf64 g) bodies ->
  lookupNearest64 calcBbox64 explode64 nearestPoint64 pt g = Ok None ->
  noTies (exactPosition pt) (map exactPosition (concat bodies)) ->
  polygonsOf64 g' <> [] ->
  Forall2 closedOuter64 (polygonsOf64 g') bodies' ->
  lookupNearest64 calcBbox64 explode64 nearestPoint64 pt g' = Ok None ->
  noTies (exactPosition pt) (map exactPosition (concat bodies')) ->
  (forall v, In v (concat bodies) <-> In v (concat bodies')) ->
  (forall v, In v (concat bodies) ->
     0 < side (exactPosition pt) d (exactPosition v)) ->
  exactOrientation pt (concat bodies) = true ->
  polygonTangents64 calcBbox64 explode64 nearestPoint64 pt g' =
  polygonTangents64 calcBbox64 explode64 nearestPoint64 pt g.
Proof.
  intros Hne HF Hlook Hties Hne' HF' Hlook' Hties' Hsame Hside Hexact.
  assert (Hside' : forall v, In v (concat bodies') ->
                             0 < side (exactPosition pt) d (exactPosition v))
    by (intros v Hv; apply Hside; apply Hsame; exact Hv).
  assert (Hexact' : exactOrientation pt (concat bodies') = true).
  { pose proof Hexact as Hfin. unfold exactOrientation in Hfin |- *.
    rewrite !andb_true_iff in Hfin. destruct Hfin as [[Hpt Hpts] _].
    rewrite !andb_true_iff. split; [split; [exact Hpt |] |].
    { rewrite forallb_forall in Hpts |- *. intros x Hx. apply Hpts.
      apply Hsame. exact Hx. }
    rewrite forallb_forall. intros a Ha.
    rewrite forallb_forall. intros b Hb.
    apply andb_true_iff.
    apply (@exactOrientation_spec pt (concat bodies) a b Hexact);
      apply Hsame; assumption. }
  destruct (@tangents_first_last64 calcBbox64 explode64 nearestPoint64 pt g
              bodies d Hne HF Hlook Hside Hties Hexact)
    as (r & l & E & Mr & Ml & A & B).
  destruct (@tangents_first_last64 calcBbox64 explode64 nearestPoint64 pt g'
              bodies' d Hne' HF' Hlook' Hside' Hties' Hexact')
    as (r' & l' & E' & Mr' & Ml' & A' & B').
  rewrite E, E'.
  assert (Hr : r' = r).
  { apply (@noTies_exact_unique (exactPosition pt) (concat bodies) Hties r' r);
      [apply Hsame; exact Mr' | exact Mr |].
    pose proof (A r' (proj2 (Hsame r') Mr')) as H1.
    pose proof (A' r (proj1 (Hsame r) Mr)) as H2.
    unfold before in H1, H2.
    rewrite (isLeft_anti (exactPosition pt) (exactPosition r) (exactPosition r')) in H1.
    lra. }
  assert (Hl : l' = l).
  { apply (@noTies_exact_unique (exactPosition pt) (concat bodies) Hties l' l);
      [apply Hsame; exact Ml' | exact Ml |].
    pose proof (B l' (proj2 (Hsame l') Ml')) as H1.
    pose proof (B' l (proj1 (Hsame l) Ml)) as H2.
    unfold before in H1, H2.
    rewrite (isLeft_anti (exactPosition pt) (exactPosition l) (exactPosition l')) in H2.
    lra. }
  subst. reflexivity.
Qed.

Lemma tangents_same_vertices_binary64_witness :
  tangents64 (8, -3)%float (MultiPolygon64 [[squareEast64]; [square64; window64]]) =
  tangents64 (8, -3)%float (MultiPolygon64 [[square64]; [squareEast64]]).
Proof.
  apply (@tangents_same_vertices_binary64 calcBbox64 explode64 nearestPoint64
           (8, -3)%float
           (MultiPolygon64 [[square64]; [squareEast64]])
           (MultiPolygon64 [[squareEast64]; [square64; window64]])
           [removelast square64; removelast squareEast64]
           [removelast squareEast64; removelast square64] (0, 1)).
  - discriminate.
  - constructor; [| constructor; [| constructor]].
    + exact (closedOuter64_intro (0, 0)%float (4, 0)%float
               [(4, 4); (0, 4)]%float []).
    + exact (closedOuter64_intro (10, 0)%float (14, 0)%float
               [(14, 4); (10, 4)]%float []).
  - vm_compute. reflexivity.
  - unfold noTies. simpl. repeat constructor; vm_compute; discriminate.
  - discriminate.
  - constructor; [| constructor; [| constructor]].
    + exact (closedOuter64_intro (10, 0)%float (14, 0)%float
               [(14, 4); (10, 4)]%float []).
    + exact (closedOuter64_intro (0, 0)%float (4, 0)%float
               [(4, 4); (0, 4)]%float [window64]).
  - vm_compute. reflexivity.
  - unfold noTies. simpl. repeat constructor; vm_compute; discriminate.
  - intros v. simpl. tauto.
  - intros v Hv. simpl in Hv.
    repeat (destruct Hv as [<- | Hv]; [vm_compute; reflexivity |]).
    destruct Hv.
  - vm_compute. reflexivity.
Defined.

(** ** What [processPolygon] reads of [eprev], in binary64 *)

(** In binary64 [processPolygon] reads of the [eprev] it is given only the
    outcome of its two tests, [eprev > 0] and [eprev <= 0]; for NaN both
    are false. *)
Theorem processPolygon64_eprev_tests (ring : Ring64) (pt : Position64)
    (e e' : float) (rtan ltan : option Position64) :
  (0 <? e')%float = (0 <? e)%float ->
  (e' <=? 0)%float = (e <=? 0)%float ->
  processPolygon64 ring pt e' rtan ltan = processPolygon64 ring pt e rtan ltan.
Proof.
  intros Hgt Hle. unfold processPolygon64.
  destruct (length ring) as [| n]; [reflexivity |].
  cbn [sweepLoop64].
  replace (sweepBody64 ring pt 0 (mkSweep64 e' rtan ltan))
    with (sweepBody64 ring pt 0 (mkSweep64 e rtan ltan)); [reflexivity |].
  unfold sweepBody64. cbn [st_eprev64 st_rtan64 st_ltan64].
  rewrite Hgt, Hle. reflexivity.
Qed.

Lemma processPolygon64_eprev_tests_witness :
  processPolygon64 dart64 (2, 2)%float 2.5%float (Some (0, 4)%float) None =
  processPolygon64 dart64 (2, 2)%float 1%float (Some (0, 4)%float) None.
Proof.
  apply (@processPolygon64_eprev_tests dart64 (2, 2)%float 1%float 2.5%float
           (Some (0, 4)%float) None); vm_compute; reflexivity.
Defined.

(** That [eprev] is not positive does not settle the run: -1 and NaN are
    both not positive, and from -1 the first edge updates [rtan] where from
    NaN it does not. *)
Lemma processPolygon64_nan_eprev :
  (0 <? -1)%float = false /\ (0 <? nan)%float = false /\
  processPolygon64 [(0, 0); (4, 0)]%float (2, 2)%float (-1)%float
    (Some (4, 0)%float) (Some (0, 0)%float) =
    Ok (Some (0, 0)%float, Some (4, 0)%float) /\
  processPolygon64 [(0, 0); (4, 0)]%float (2, 2)%float nan
    (Some (4, 0)%float) (Some (0, 0)%float) =
    Ok (Some (4, 0)%float, Some (4, 0)%float).
Proof. repeat split; vm_compute; reflexivity. Qed.

(** ** Symmetries of the orientation predicate, in binary64 *)

(** In binary64, exchanging the last two points of [isLeft] turns [isAbove]
    into [isBelow] and back, and so does negating the y-coordinate of all
    three points: both negate the computed number exactly. *)
Theorem orientation_exchange_binary64 (p1 p2 p3 : Position64) :
  isAbove64 p1 p3 p2 = isBelow64 p1 p2 p3 /\
  isBelow64 p1 p3 p2 = isAbove64 p1 p2 p3 /\
  isAbove64 (mirror64 p1) (mirror64 p2) (mirror64 p3) = isBelow64 p1 p2 p3 /\
  isBelow64 (mirror64 p1) (mirror64 p2) (mirror64 p3) = isAbove64 p1 p2 p3.
Proof.
  unfold isAbove64, isBelow64.
  destruct (isLeft64_mirror_tests p1 p2 p3) as (M1 & M2 & _).
  pose proof (@negated_tests _ _ (isLeft64_exchange p1 p2 p3)) as (E1 & E2 & _).
  rewrite !gt0_spec, !lt0_spec in *.
  auto.
Qed.

(** A cyclic shift of the three points, which leaves the exact orientation
    alone, changes the computed one: the three points below have the exact
    orientation 1, computed as 4 from the first point and as 0 from the
    second. *)
Lemma orientation_shift_rounds :
  isLeft (exactPosition (0, 0)%float)
    (exactPosition (131144123, 599958518)%float)
    (exactPosition (58207019, 266285641)%float) == 1 /\
  isLeft (exactPosition (131144123, 599958518)%float)
    (exactPosition (58207019, 266285641)%float)
    (exactPosition (0, 0)%float) == 1 /\
  isAbove64 (0, 0)%float (131144123, 599958518)%float
    (58207019, 266285641)%float = true /\
  isAbove64 (131144123, 599958518)%float (58207019, 266285641)%float
    (0, 0)%float = false.
Proof. repeat split; vm_compute; reflexivity. Qed.
